(** * pragma: micro-batch ingestion pipeline with in-memory statistics

    A shallow embedding of [Stats.py], [Pipeline.py] and [main.py].

    - Python [float] is IEEE-754 binary64.  It is modelled by the Standard
      Library's executable specification [spec_float] at precision 53 and
      maximal exponent 1024: additions round to nearest-even, NaN and the
      infinities behave as in the interpreter.
    - Python [int] is unbounded and modelled by [Z].
    - The Polars frame of a window is a list of rows whose price cell may be
      null; the PostgreSQL session is a record with the committed rows and the
      rows written by the transaction in flight.
    - Exceptions are modelled by a state-and-error monad in which the state
      reached at the point of the [raise] survives, as it does for the
      attributes of a Python object. *)

From Stdlib Require Import String Ascii ZArith List Bool Lia.
From Stdlib Require Import Floats.SpecFloat.
Import ListNotations.

Local Open Scope Z_scope.

(** ** Binary64 values *)

Module F64.

Definition prec : Z := 53.
Definition emax : Z := 1024.

Definition float : Type := spec_float.

Definition add : float -> float -> float := SFadd prec emax.
Definition div : float -> float -> float := SFdiv prec emax.
Definition ltb : float -> float -> bool := SFltb.
Definition leb : float -> float -> bool := SFleb.
Definition eqb : float -> float -> bool := SFeqb.

(** [a > b] is [b < a], [a >= b] is [b <= a]; [a != b] is the negation of
    [a == b]. *)
Definition gtb (a b : float) : bool := ltb b a.
Definition geb (a b : float) : bool := leb b a.
Definition neqb (a b : float) : bool := negb (eqb a b).

Definition is_nan (x : float) : bool :=
  match x with S754_nan => true | _ => false end.

Definition inf : float := S754_infinity false.
Definition neg_inf : float := S754_infinity true.
Definition nan : float := S754_nan.
Definition zero : float := S754_zero false.

(** The binary64 value nearest to an integer (ties to even). *)
Definition of_Z (z : Z) : float := binary_normalize prec emax z 0 false.

(** [float(n)] for a Python int: [OverflowError] when [n] is out of range. *)
Definition of_int (z : Z) : option float :=
  match of_Z z with
  | S754_infinity _ => None
  | f => Some f
  end.

(** The order [not (y < x)] as a proposition. *)
Definition fle (x y : float) : Prop := ltb y x = false.

End F64.

Import F64.

(** ** Builtins of the interpreter and of NumPy used by [Stats] *)

(** [min(a, b)] of Python: the first argument unless the second is strictly
    smaller; [max(a, b)]: the first unless the second is strictly greater. *)
Definition py_min (a b : float) : float := if ltb b a then b else a.
Definition py_max (a b : float) : float := if gtb b a then b else a.

(** [numpy.minimum] and [numpy.maximum] on scalars,
    [(a <= b || isnan(a)) ? a : b] and [(a >= b || isnan(a)) ? a : b]: a NaN
    operand wins. *)
Definition np_minimum (a b : float) : float :=
  if leb a b || is_nan a then a else b.
Definition np_maximum (a b : float) : float :=
  if geb a b || is_nan a then a else b.

(** [ndarray.min()], [ndarray.max()] of a non-empty array [x :: xs]: the
    reduction starts from the first element. *)
Definition np_min (x : float) (xs : list float) : float :=
  fold_left np_minimum xs x.
Definition np_max (x : float) (xs : list float) : float :=
  fold_left np_maximum xs x.

(** [ndarray.sum()]: the elements are added from left to right into an
    accumulator that starts at zero.  (NumPy regroups the additions of arrays
    of eight elements and more; no statement below depends on the grouping of
    such arrays.) *)
Definition np_sum (xs : list float) : float :=
  fold_left add xs zero.

(** ** Polars series of prices

    A [Float64] series is a list of cells, a null cell being [None].
    [Series.to_numpy()] writes NaN for a null cell; [pl.Series(values)] built
    from floats has no null cell (a NaN stays a NaN). *)

Definition Series : Type := list (option float).

Definition to_numpy (s : Series) : list float :=
  map (fun c => match c with Some x => x | None => nan end) s.

Definition pl_Series (values : list float) : Series := map Some values.

(** ** Stats.py *)

Record Stats : Type := mkStats {
  COUNT : Z;
  SUM : float;
  MIN_VALUE : float;
  MAX_VALUE : float
}.

(** [Stats()] with the dataclass defaults. *)
Definition Stats_init : Stats :=
  {| COUNT := 0; SUM := zero; MIN_VALUE := inf; MAX_VALUE := neg_inf |}.

(** The property [_mean]: [SUM / COUNT if COUNT > 0 else 0.0].  [None] stands
    for the [OverflowError] of converting a huge [COUNT] to a float. *)
Definition _mean (s : Stats) : option float :=
  if 0 <? COUNT s then
    match of_int (COUNT s) with
    | Some c => Some (div (SUM s) c)
    | None => None
    end
  else Some zero.

(** [update_from_batch(prices)].  The early [return] is taken when
    [len(prices) == 0]; otherwise [price_values = prices.to_numpy()] is
    non-empty and has the length of the series. *)
Definition update_from_batch (s : Stats) (prices : Series) : Stats :=
  match to_numpy prices with
  | [] => s
  | x :: xs =>
      let price_values := x :: xs in
      {| COUNT := COUNT s + Z.of_nat (length price_values);
         SUM := add (SUM s) (np_sum price_values);
         MIN_VALUE := py_min (MIN_VALUE s) (np_min x xs);
         MAX_VALUE := py_max (MAX_VALUE s) (np_max x xs) |}
  end.

(** The dictionary returned by [get_current_stats], with the keys
    ['count'], ['mean'], ['min'] and ['max']. *)
Record Snapshot : Type := mkSnapshot {
  snap_count : Z;
  snap_mean : float;
  snap_min : float;
  snap_max : float
}.

Definition get_current_stats (s : Stats) : option Snapshot :=
  match _mean s with
  | Some m =>
      Some {| snap_count := COUNT s;
              snap_mean := m;
              snap_min := if neqb (MIN_VALUE s) inf then MIN_VALUE s else zero;
              snap_max := if neqb (MAX_VALUE s) neg_inf then MAX_VALUE s else zero |}
  | None => None
  end.

(** States a run can reach: the initial one and those [update_from_batch]
    leads to. *)
Inductive reachable : Stats -> Prop :=
| reach_init : reachable Stats_init
| reach_update s prices : reachable s -> reachable (update_from_batch s prices).

(** ** Exceptions and the state of a [Pipeline] object *)

Inductive exn : Type :=
| FileNotFoundError
| ValueError
| TypeError
| AttributeError
| IndexError
| OverflowError
| OperationalError
| InterfaceError
| DatabaseError.

(** The outcome of running a piece of code: a value, an exception, or the
    exhaustion of the fuel given to the [while True] loop. *)
Inductive outcome (A : Type) : Type :=
| Return (a : A)
| Raise (e : exn)
| OutOfFuel.

Arguments Return {A} a.
Arguments Raise {A} e.
Arguments OutOfFuel {A}.

(** [datetime.datetime] values produced by [strptime] (midnight). *)
Record datetime : Type := mkDatetime {
  year : Z;
  month : Z;
  day : Z
}.

(** A tuple handed to the [INSERT] statement:
    [(timestamp, price, user_id, file_source)]. *)
Record record : Type := mkRecord {
  timestamp : datetime;
  price : float;
  user_id : string;
  file_source : string
}.

(** One row of the frame read from a CSV file: the date text, the cell of
    the [Float64] column [price] (possibly null) and the user identifier. *)
Record Row : Type := mkRow {
  row_date : string;
  row_price : option float;
  row_user : string
}.

Definition DataFrame : Type := list Row.

(** The row fetched by the aggregate query of [verify_results_from_db]:
    [COUNT( * )], [AVG(price)::numeric(10,2)], [MIN(price)], [MAX(price)];
    an aggregate over no row is NULL.  A [numeric(10,2)] arrives as a
    [Decimal]: NaN or an integer number of hundredths. *)
Inductive Decimal : Type :=
| DecNaN
| Dec (hundredths : Z).

Definition aggregate_row : Type :=
  (option Z * option Decimal * option float * option float)%type.

(** The psycopg2 session.  [committed] is the content of the table
    [transactions], [pending] the rows inserted by the transaction in flight;
    [accepts] says which [INSERT]s the server carries out and
    [sql_aggregates] is the server's evaluation of the aggregate query over
    the rows the session sees. *)
Record connection : Type := mkConnection {
  committed : list record;
  pending : list record;
  closed : bool;
  accepts : record -> bool;
  sql_aggregates : list record -> aggregate_row
}.

(** What the object does to its surroundings, in order. *)
Inductive event : Type :=
| EvProcess (filepath : string) (update_per_row : bool)
| EvSlice (offset length : Z) (height : nat)
| EvExecuteBatch (rows : nat)
| EvExecute
| EvCommit
| EvRollback.

(** The attributes of a [Pipeline].  [conn] stands for [self.connection]
    and [self.cursor], which are set together: [None] before [connect()].
    [db_config] is only read by [connect()], whose outcome is an argument of
    the model.  [trace] is a history variable: it records the events of the
    calls made so far. *)
Record Pipeline : Type := mkPipeline {
  chunk_size : Z;
  stats : Stats;
  conn : option connection;
  trace : list event
}.

(** [Pipeline(db_config, chunk_size)]. *)
Definition Pipeline_init (chunk_size : Z) : Pipeline :=
  {| chunk_size := chunk_size; stats := Stats_init; conn := None; trace := [] |}.

(** ** The monad of methods *)

Definition M (A : Type) : Type := Pipeline -> outcome A * Pipeline.

Definition ret {A} (a : A) : M A := fun p => (Return a, p).

Definition bind {A B} (c : M A) (k : A -> M B) : M B :=
  fun p =>
    match c p with
    | (Return a, p') => k a p'
    | (Raise e, p') => (Raise e, p')
    | (OutOfFuel, p') => (OutOfFuel, p')
    end.

Definition raise {A} (e : exn) : M A := fun p => (Raise e, p).

Definition get : M Pipeline := fun p => (Return p, p).

Definition modify (f : Pipeline -> Pipeline) : M unit :=
  fun p => (Return tt, f p).

(** [try: body  except Exception as e: handler e]. *)
Definition try_except {A} (body : M A) (handler : exn -> M A) : M A :=
  fun p =>
    match body p with
    | (Raise e, p') => handler e p'
    | r => r
    end.

(** [try: body  finally: final]. *)
Definition try_finally {A} (body : M A) (final : M unit) : M A :=
  fun p =>
    match body p with
    | (r, p') =>
        match final p' with
        | (Return _, p'') => (r, p'')
        | (Raise e, p'') => (Raise e, p'')
        | (OutOfFuel, p'') => (OutOfFuel, p'')
        end
    end.

Declare Scope monad_scope.
Delimit Scope monad_scope with monad.
Notation "x <- c ;; k" := (bind c (fun x => k))
  (at level 61, c at next level, right associativity) : monad_scope.
Notation "c ;; k" := (bind c (fun _ => k))
  (at level 61, right associativity) : monad_scope.
Local Open Scope monad_scope.

Definition log (e : event) : M unit :=
  modify (fun p => {| chunk_size := chunk_size p; stats := stats p;
                      conn := conn p; trace := trace p ++ [e] |}).

Definition set_stats (s : Stats) : M unit :=
  modify (fun p => {| chunk_size := chunk_size p; stats := s;
                      conn := conn p; trace := trace p |}).

Definition set_conn (c : option connection) : M unit :=
  modify (fun p => {| chunk_size := chunk_size p; stats := stats p;
                      conn := c; trace := trace p |}).

Fixpoint forM {A} (xs : list A) (body : A -> M unit) : M unit :=
  match xs with
  | [] => ret tt
  | x :: xs' => body x ;; forM xs' body
  end.

(** ** The psycopg2 session *)

Definition with_conn (c : connection) (committed' pending' : list record)
    (closed' : bool) : connection :=
  {| committed := committed'; pending := pending'; closed := closed';
     accepts := accepts c; sql_aggregates := sql_aggregates c |}.

(** An attribute access on [self.cursor] or [self.connection]: on [None] it
    raises [AttributeError]; on a closed session every operation raises
    [InterfaceError]. *)
Definition the_session : M connection :=
  p <- get ;;
  match conn p with
  | None => raise AttributeError
  | Some c => if closed c then raise InterfaceError else ret c
  end.

(** One [INSERT INTO transactions ... VALUES (%s, %s, %s, %s)]. *)
Definition insert_row (r : record) : M unit :=
  c <- the_session ;;
  if accepts c r
  then set_conn (Some (with_conn c (committed c) (pending c ++ [r]) false))
  else raise DatabaseError.

(** [cursor.execute(insert_query, record)]. *)
Definition cursor_execute (r : record) : M unit :=
  log EvExecute ;;
  insert_row r.

(** [execute_batch(cursor, insert_query, records)]: the statements of the
    batch, in order. *)
Definition execute_batch (records : list record) : M unit :=
  log (EvExecuteBatch (length records)) ;;
  forM records insert_row.

(** [connection.commit()] and [connection.rollback()]. *)
Definition connection_commit : M unit :=
  c <- the_session ;;
  log EvCommit ;;
  set_conn (Some (with_conn c (committed c ++ pending c) [] false)).

Definition connection_rollback : M unit :=
  c <- the_session ;;
  log EvRollback ;;
  set_conn (Some (with_conn c (committed c) [] false)).

(** The aggregate query followed by [cursor.fetchone()]; the session sees the
    committed rows and its own uncommitted ones. *)
Definition fetch_aggregates : M aggregate_row :=
  c <- the_session ;;
  ret (sql_aggregates c (committed c ++ pending c)).

(** ** Polars frames and the standard library *)

(** [lf.slice(offset, length).collect()]; a negative length is refused with
    [ValueError]. *)
Definition slice_collect (lf : DataFrame) (offset length : Z) : M DataFrame :=
  if length <? 0 then raise ValueError
  else
    let chunk := firstn (Z.to_nat length) (skipn (Z.to_nat offset) lf) in
    log (EvSlice offset length (List.length chunk)) ;;
    ret chunk.

(** [chunk.get_column('price').cast(pl.Float64)]. *)
Definition get_column_price (chunk : DataFrame) : Series :=
  map row_price chunk.

(** [chunk.with_columns(pl.col("price").fill_null(0))]: a new frame, the
    argument is left as it was. *)
Definition fill_null_price (chunk : DataFrame) : DataFrame :=
  map (fun r => {| row_date := row_date r;
                   row_price := Some (match row_price r with
                                      | Some x => x
                                      | None => zero
                                      end);
                   row_user := row_user r |}) chunk.

(** [os.path.join(a, b)] for a relative [b] and an [a] without trailing
    separator. *)
Definition path_join (a b : string) : string := (a ++ "/" ++ b)%string.

(** *** [datetime.strptime(text, "%m/%d/%Y")] *)

Definition is_digit (c : ascii) : bool :=
  let n := nat_of_ascii c in (48 <=? n)%nat && (n <=? 57)%nat.

Fixpoint all_digits (s : string) : bool :=
  match s with
  | EmptyString => true
  | String c rest => is_digit c && all_digits rest
  end.

Fixpoint digits_value (acc : Z) (s : string) : Z :=
  match s with
  | EmptyString => acc
  | String c rest => digits_value (10 * acc + (Z.of_nat (nat_of_ascii c) - 48)) rest
  end.

(** The fields of [text] between the separators [sep]. *)
Fixpoint split_on (sep : ascii) (text : string) : list string :=
  match text with
  | EmptyString => [EmptyString]
  | String c rest =>
      if Ascii.eqb c sep then EmptyString :: split_on sep rest
      else
        match split_on sep rest with
        | [] => [String c EmptyString]
        | field :: fields => String c field :: fields
        end
  end.

(** [os.path.basename]: what follows the last ["/"]. *)
Definition basename (path : string) : string :=
  last (split_on "/"%char path) EmptyString.

(** [%m]: [1[0-2]|0[1-9]|[1-9]]. *)
Definition parse_month (s : string) : option Z :=
  let v := digits_value 0 s in
  if all_digits s && (1 <=? String.length s)%nat && (String.length s <=? 2)%nat
     && (1 <=? v) && (v <=? 12)
  then Some v else None.

(** [%d]: [3[01]|[12]\d|0[1-9]|[1-9]| [1-9]]. *)
Definition parse_day (s : string) : option Z :=
  let s' := match s with
            | String " " (String c EmptyString) => String c EmptyString
            | _ => s
            end in
  let v := digits_value 0 s' in
  if all_digits s' && (1 <=? String.length s')%nat && (String.length s' <=? 2)%nat
     && (1 <=? v) && (v <=? 31)
  then Some v else None.

(** [%Y]: [\d\d\d\d]. *)
Definition parse_year (s : string) : option Z :=
  if all_digits s && (String.length s =? 4)%nat
  then Some (digits_value 0 s) else None.

Definition is_leap (y : Z) : bool :=
  (y mod 4 =? 0) && (negb (y mod 100 =? 0) || (y mod 400 =? 0)).

Definition days_in_month (y m : Z) : Z :=
  if m =? 2 then (if is_leap y then 29 else 28)
  else if (m =? 4) || (m =? 6) || (m =? 9) || (m =? 11) then 30
  else 31.

(** [None] is the [ValueError] of a text that does not match the format or
    names no day of the calendar. *)
Definition strptime (text : string) : option datetime :=
  match split_on "/"%char text with
  | [m; d; y] =>
      match parse_month m, parse_day d, parse_year y with
      | Some mv, Some dv, Some yv =>
          if (1 <=? yv) && (dv <=? days_in_month yv mv)
          then Some {| year := yv; month := mv; day := dv |}
          else None
      | _, _, _ => None
      end
  | _ => None
  end.

(** ** Pipeline.py *)

(** [_prepare_records(chunk, filename)].  The name [chunk] is rebound to the
    frame with the nulls replaced inside this method only; the caller's frame
    is the one it passed. *)
Fixpoint rows_to_records (rows : DataFrame) (filename : string)
    : M (list record) :=
  match rows with
  | [] => ret []
  | row :: rest =>
      match strptime (row_date row) with
      | None => raise ValueError
      | Some ts =>
          match row_price row with
          | None => raise TypeError
          | Some x =>
              records <- rows_to_records rest filename ;;
              ret ({| timestamp := ts; price := x;
                      user_id := row_user row; file_source := filename |}
                     :: records)
          end
      end
  end.

Definition _prepare_records (chunk : DataFrame) (filename : string)
    : M (list record) :=
  let chunk := fill_null_price chunk in
  rows_to_records chunk filename.

(** [self.stats.update_from_batch(prices)]. *)
Definition stats_update_from_batch (prices : Series) : M unit :=
  p <- get ;;
  set_stats (update_from_batch (stats p) prices).

(** [_process_batch(records, chunk)]. *)
Definition _process_batch (records : list record) (chunk : DataFrame) : M unit :=
  execute_batch records ;;
  let prices := get_column_price chunk in
  stats_update_from_batch prices.

(** [_process_row_by_row(records, chunk)]: [for i, record in
    enumerate(records)], reading [prices[i]] from the array of the window. *)
Fixpoint row_by_row_from (i : nat) (records : list record) (prices : list float)
    : M unit :=
  match records with
  | [] => ret tt
  | record :: rest =>
      cursor_execute record ;;
      match nth_error prices i with
      | Some x =>
          let single_price := pl_Series [x] in
          stats_update_from_batch single_price ;;
          row_by_row_from (S i) rest prices
      | None => raise IndexError
      end
  end.

Definition _process_row_by_row (records : list record) (chunk : DataFrame)
    : M unit :=
  let prices := to_numpy (get_column_price chunk) in
  row_by_row_from 0 records prices.

(** The [while True] loop of [process_csv_file], with the local variables
    [offset] and [total_rows_processed]; one unit of fuel per iteration. *)
Fixpoint process_windows (fuel : nat) (lf : DataFrame) (filename : string)
    (update_per_row : bool) (offset total_rows_processed : Z) : M Z :=
  match fuel with
  | O => fun p => (OutOfFuel, p)
  | S fuel' =>
      p <- get ;;
      chunk <- slice_collect lf offset (chunk_size p) ;;
      if (List.length chunk =? 0)%nat then ret total_rows_processed
      else
        records <- _prepare_records chunk filename ;;
        (if update_per_row
         then _process_row_by_row records chunk
         else _process_batch records chunk) ;;
        process_windows fuel' lf filename update_per_row
          (offset + chunk_size p)
          (total_rows_processed + Z.of_nat (List.length records))
  end.

Section Files.

(** The files the process can read: the frame [pl.scan_csv(path)] yields, or
    [None] where there is no such file. *)
Variable fs : string -> option DataFrame.

Definition path_exists (path : string) : bool :=
  match fs path with Some _ => true | None => false end.

Definition scan_csv (filepath : string) : M DataFrame :=
  match fs filepath with
  | Some lf => ret lf
  | None => raise FileNotFoundError
  end.

(** [process_csv_file(filepath, update_per_row)].  A window that is not empty
    moves [offset] forward, so the loop runs at most once per row and once
    more: the fuel below is never used up ([process_csv_file_total]). *)
Definition process_csv_file (filepath : string) (update_per_row : bool) : M Z :=
  let filename := basename filepath in
  log (EvProcess filepath update_per_row) ;;
  try_except
    (lf <- scan_csv filepath ;;
     total_rows_processed <-
       process_windows (S (List.length lf)) lf filename update_per_row 0 0 ;;
     connection_commit ;;
     ret total_rows_processed)
    (fun e =>
       p <- get ;;
       match conn p with
       | Some _ => connection_rollback ;; raise e
       | None => raise e
       end).

(** [verify_results_from_db()].  [x or 0] and [float(x) if x else 0.0] test
    the truth value of [x]: [None], zero and [Decimal('0.00')] are false, a
    NaN is true. *)
Definition Decimal_to_float (d : Decimal) : float :=
  match d with
  | DecNaN => nan
  | Dec h => div (of_Z h) (of_Z 100)
  end.

Definition Decimal_truth (d : Decimal) : bool :=
  match d with
  | DecNaN => true
  | Dec h => negb (h =? 0)
  end.

Definition float_truth (x : float) : bool := neqb x zero.

Definition db_stats_of (result : aggregate_row) : Snapshot :=
  let '(r0, r1, r2, r3) := result in
  {| snap_count := match r0 with Some n => n | None => 0 end;
     snap_mean := match r1 with
                  | Some d => if Decimal_truth d then Decimal_to_float d else zero
                  | None => zero
                  end;
     snap_min := match r2 with
                 | Some x => if float_truth x then x else zero
                 | None => zero
                 end;
     snap_max := match r3 with
                 | Some x => if float_truth x then x else zero
                 | None => zero
                 end |}.

Definition verify_results_from_db : M Snapshot :=
  result <- fetch_aggregates ;;
  ret (db_stats_of result).

(** [connect()]: [server] is the session [psycopg2.connect] opens, [None]
    when the server cannot be reached. *)
Definition connect (server : option connection) : M unit :=
  match server with
  | Some c => set_conn (Some c)
  | None => raise OperationalError
  end.

(** [disconnect()]: closing a session discards its uncommitted rows. *)
Definition disconnect : M unit :=
  p <- get ;;
  match conn p with
  | Some c => set_conn (Some (with_conn c (committed c) [] true))
  | None => ret tt
  end.

(** [stats.print_stats(title)]: the output is not modelled, the evaluation of
    [_mean] is. *)
Definition print_stats : M unit :=
  p <- get ;;
  match _mean (stats p) with
  | Some _ => ret tt
  | None => raise OverflowError
  end.

(** ** main.py *)

Definition DATA_DIR : string := "./data".

(** [str(i)] for a decimal digit. *)
Definition str_of_digit (i : nat) : string :=
  String (ascii_of_nat (48 + i)) EmptyString.

Definition dated_file (i : nat) : string :=
  path_join DATA_DIR ("2012-" ++ str_of_digit i ++ ".csv").

Definition validation_path : string := path_join DATA_DIR "validation.csv".

(** The body of [for i in range(1, 6)]. *)
Definition main_iteration (i : nat) : M unit :=
  let filepath := dated_file i in
  if negb (path_exists filepath) then ret tt
  else
    process_csv_file filepath false ;;
    print_stats ;;
    stats_before <- verify_results_from_db ;;
    (if path_exists validation_path
     then process_csv_file validation_path true ;; print_stats
     else ret tt) ;;
    stats_after <- verify_results_from_db ;;
    ret tt.

(** The script: [Pipeline(DB_CONFIG, chunk_size=1000)], then the [try] /
    [except] / [finally] block. *)
Definition main_block (server : option connection) : M unit :=
  try_finally
    (try_except
       (connect server ;;
        forM [1; 2; 3; 4; 5]%nat main_iteration)
       (fun e => raise e))
    disconnect.

Definition main (server : option connection) : outcome unit * Pipeline :=
  main_block server (Pipeline_init 1000).

End Files.

(** ** Vocabulary of the statements *)

(** No value of the list is NaN. *)
Definition nan_free (l : list float) : Prop :=
  Forall (fun x => is_nan x = false) l.

(** The snapshot of an accumulator that has seen nothing. *)
Definition snapshot_zero : Snapshot :=
  {| snap_count := 0; snap_mean := zero; snap_min := zero; snap_max := zero |}.

(** A session whose server turns no [INSERT] down. *)
Definition accepting (c : connection) : Prop := forall r, accepts c r = true.

(** The date of the row parses. *)
Definition valid_row (r : Row) : Prop := strptime (row_date r) <> None.

(** The reads of the loop: the [lf.slice(offset, chunk_size)] events of a
    trace. *)
Definition is_slice (e : event) : bool :=
  match e with EvSlice _ _ _ => true | _ => false end.

Definition slices (t : list event) : list event := filter is_slice t.

(** The calls of [process_csv_file] recorded in a trace: the path and the
    value of [update_per_row]. *)
Definition process_calls (t : list event) : list (string * bool) :=
  flat_map (fun e => match e with
                     | EvProcess filepath update_per_row =>
                         [(filepath, update_per_row)]
                     | _ => []
                     end) t.

(** The accumulator after the batches have been fed in order, and the
    values those batches hold once they are arrays. *)
Definition feed (s : Stats) (batches : list Series) : Stats :=
  fold_left update_from_batch batches s.

Definition values_of (batches : list Series) : list float :=
  concat (map to_numpy batches).

(** The reads expected of a file of [rows] rows with a window of [size]:
    one per started window, at the multiples of [size], and a last one that
    finds nothing. *)
Definition expected_reads (size : Z) (rows : nat) : list event :=
  let n := Z.to_nat size in
  map (fun j => EvSlice (Z.of_nat j * size) size (Nat.min n (rows - j * n)))
      (seq 0 (S ((rows + n - 1) / n))).

(** The calls of [process_csv_file] a complete run of the script makes in
    the directory [fs]: for each dated file that exists, that file with the
    batch policy, then [validation.csv] row by row if it exists. *)
Definition calls_of_iteration (fs : string -> option DataFrame) (i : nat)
    : list (string * bool) :=
  if path_exists fs (dated_file i)
  then (dated_file i, false)
         :: (if path_exists fs validation_path
             then [(validation_path, true)] else [])
  else [].

Definition expected_calls (fs : string -> option DataFrame)
    : list (string * bool) :=
  flat_map (calls_of_iteration fs) [1; 2; 3; 4; 5]%nat.

(** ** Scenarios *)

(** A server with an empty table that takes every row.  The scenarios look
    at the answer to the aggregate query on the empty table only: the count
    is given for every table, the average and the bounds of a table with rows
    are left out. *)
Definition willing_server : connection :=
  {| committed := []; pending := []; closed := false;
     accepts := fun _ => true;
     sql_aggregates := fun rows =>
       (Some (Z.of_nat (length rows)), None, None, None) |}.

Definition connected (size : Z) : Pipeline :=
  {| chunk_size := size; stats := Stats_init;
     conn := Some willing_server; trace := [] |}.

Definition one_file (name : string) (content : DataFrame) (path : string)
    : option DataFrame :=
  if String.eqb path name then Some content else None.

(** The file of the scenario of the specification: a price of 10.0 and a
    null price. *)
Definition rows_with_null : DataFrame :=
  [ {| row_date := "01/01/2012"; row_price := Some (of_Z 10); row_user := "u1" |};
    {| row_date := "01/02/2012"; row_price := None; row_user := "u2" |} ].

Definition rows_with_null_stored (filename : string) : list record :=
  [ {| timestamp := {| year := 2012; month := 1; day := 1 |};
       price := of_Z 10; user_id := "u1"; file_source := filename |};
    {| timestamp := {| year := 2012; month := 1; day := 2 |};
       price := zero; user_id := "u2"; file_source := filename |} ].

(** A server that refuses the prices above 25. *)
Definition picky_server : connection :=
  {| committed := []; pending := []; closed := false;
     accepts := fun r => negb (ltb (of_Z 25) (price r));
     sql_aggregates := fun rows =>
       (Some (Z.of_nat (length rows)), None, None, None) |}.

(** Four prices, the first of which swallows an added 1.0. *)
Definition rows_large_small : DataFrame :=
  map (fun x => {| row_date := "03/15/2012"; row_price := Some x; row_user := "u" |})
      [of_Z (10 ^ 16); of_Z 1; of_Z 1; of_Z 1].

(** Three plain rows. *)
Definition rows_plain : DataFrame :=
  map (fun x => {| row_date := "03/15/2012"; row_price := Some x; row_user := "u" |})
      [of_Z 3; of_Z 1; of_Z 2].

(** 2500 rows. *)
Definition rows_2500 : DataFrame :=
  repeat {| row_date := "03/15/2012"; row_price := Some (of_Z 7); row_user := "u" |}
         2500.

(** Three rows, the last with a day and a month in the wrong order. *)
Definition rows_bad_third : DataFrame :=
  [ {| row_date := "01/01/2012"; row_price := Some (of_Z 10); row_user := "u1" |};
    {| row_date := "01/02/2012"; row_price := Some (of_Z 20); row_user := "u2" |};
    {| row_date := "31/12/2012"; row_price := Some (of_Z 30); row_user := "u3" |} ].

(** A data directory in which the files [names] exist, each with the rows
    [content]. *)
Definition directory (names : list string) (content : DataFrame)
    (path : string) : option DataFrame :=
  if existsb (String.eqb path) names then Some content else None.

Definition full_directory : string -> option DataFrame :=
  directory ["./data/2012-1.csv"; "./data/2012-2.csv"; "./data/2012-3.csv";
             "./data/2012-4.csv"; "./data/2012-5.csv";
             "./data/validation.csv"]%string
            rows_plain.

(** * Properties *)

(** ** The order of binary64 values *)

Module F64Order.

(** A value that is not NaN is placed by its class, then its exponent, then
    its mantissa; negative values run backwards. *)
Definition key (x : float) : Z * Z * Z :=
  match x with
  | S754_nan => (3, 0, 0)
  | S754_infinity true => (-2, 0, 0)
  | S754_infinity false => (2, 0, 0)
  | S754_zero _ => (0, 0, 0)
  | S754_finite false m e => (1, e, Zpos m)
  | S754_finite true m e => (-1, - e, Zneg m)
  end.

Definition lex3 (a b : Z * Z * Z) : comparison :=
  match fst (fst a) ?= fst (fst b) with
  | Eq => match snd (fst a) ?= snd (fst b) with
          | Eq => snd a ?= snd b
          | c => c
          end
  | c => c
  end.

Lemma SFcompare_key (x y : float) :
  is_nan x = false -> is_nan y = false ->
  SFcompare x y = Some (lex3 (key x) (key y)).
Proof.
  destruct x as [[]|[]| |[] mx ex], y as [[]|[]| |[] my ey];
    simpl; intros Hx Hy; try discriminate; try reflexivity;
    unfold lex3; simpl.
  rewrite Z.compare_opp, (Z.compare_antisym ey ex).
  destruct (ey ?= ex); reflexivity.
Qed.

Lemma lex3_lt_trans a b c : lex3 a b = Lt -> lex3 b c = Lt -> lex3 a c = Lt.
Proof.
  destruct a as [[a1 a2] a3], b as [[b1 b2] b3], c as [[c1 c2] c3].
  unfold lex3; simpl.
  destruct (Z.compare_spec a1 b1), (Z.compare_spec b1 c1),
    (Z.compare_spec a1 c1); try discriminate; try lia; intros; try reflexivity;
  destruct (Z.compare_spec a2 b2), (Z.compare_spec b2 c2),
    (Z.compare_spec a2 c2); try discriminate; try lia; try reflexivity;
  destruct (Z.compare_spec a3 b3), (Z.compare_spec b3 c3),
    (Z.compare_spec a3 c3); try discriminate; try lia; reflexivity.
Qed.

Lemma lex3_antisym a b : lex3 b a = CompOpp (lex3 a b).
Proof.
  destruct a as [[a1 a2] a3], b as [[b1 b2] b3]; unfold lex3; simpl.
  rewrite (Z.compare_antisym a1 b1), (Z.compare_antisym a2 b2),
    (Z.compare_antisym a3 b3).
  destruct (a1 ?= b1), (a2 ?= b2), (a3 ?= b3); reflexivity.
Qed.

Lemma lex3_nlt_trans a b c : lex3 b a <> Lt -> lex3 c b <> Lt -> lex3 c a <> Lt.
Proof.
  intros Hba Hcb Hca.
  destruct (lex3 c b) eqn:E; try congruence.
  - (* c = b in the order *)
    destruct a as [[a1 a2] a3], b as [[b1 b2] b3], c as [[c1 c2] c3].
    unfold lex3 in *; simpl in *.
    destruct (Z.compare_spec c1 b1), (Z.compare_spec c2 b2),
      (Z.compare_spec c3 b3); try discriminate; subst. now apply Hba.
  - apply Hba. apply lex3_lt_trans with c; [|exact Hca].
    rewrite lex3_antisym, E. reflexivity.
Qed.

(** [<] is transitive, NaN or not. *)
Lemma ltb_trans (x y z : float) :
  ltb x y = true -> ltb y z = true -> ltb x z = true.
Proof.
  unfold ltb, SFltb. intros Hxy Hyz.
  assert (Nx : is_nan x = false) by (destruct x, y; simpl in *; congruence).
  assert (Ny : is_nan y = false) by (destruct x, y; simpl in *; congruence).
  assert (Nz : is_nan z = false) by
    (destruct z; try reflexivity; destruct y; simpl in *; congruence).
  rewrite SFcompare_key in * by assumption.
  destruct (lex3 (key x) (key y)) eqn:E1; try discriminate.
  destruct (lex3 (key y) (key z)) eqn:E2; try discriminate.
  now rewrite (lex3_lt_trans _ _ _ E1 E2).
Qed.

Lemma ltb_asym (x y : float) : ltb x y = true -> ltb y x = false.
Proof.
  unfold ltb, SFltb. intros Hxy.
  assert (Nx : is_nan x = false) by (destruct x, y; simpl in *; congruence).
  assert (Ny : is_nan y = false) by
    (destruct y; try reflexivity; destruct x; simpl in *; congruence).
  rewrite SFcompare_key in * by assumption.
  rewrite lex3_antisym. destruct (lex3 (key x) (key y)); try discriminate.
  reflexivity.
Qed.

Lemma ltb_nan_l (y : float) : ltb nan y = false.
Proof. reflexivity. Qed.

Lemma ltb_nan_r (x : float) : ltb x nan = false.
Proof. destruct x as [[]|[]| |[] ? ?]; reflexivity. Qed.

(** [fle x y] is [not (y < x)]; it is transitive through a value that is
    not NaN. *)
Lemma fle_trans (x y z : float) :
  is_nan y = false -> fle x y -> fle y z -> fle x z.
Proof.
  unfold fle. intros Ny Hxy Hyz.
  destruct (is_nan x) eqn:Nx.
  { destruct x; try discriminate. apply ltb_nan_r. }
  destruct (is_nan z) eqn:Nz.
  { destruct z; try discriminate. apply ltb_nan_l. }
  unfold ltb, SFltb in *.
  rewrite SFcompare_key in * by assumption.
  assert (H : lex3 (key z) (key x) <> Lt).
  { apply lex3_nlt_trans with (key y).
    - intro E; rewrite E in Hxy; discriminate.
    - intro E; rewrite E in Hyz; discriminate. }
  destruct (lex3 (key z) (key x)); congruence.
Qed.

(** Away from NaN, [x <= y] is [not (y < x)]. *)
Lemma leb_nlt (x y : float) :
  is_nan x = false -> is_nan y = false -> leb x y = negb (ltb y x).
Proof.
  unfold leb, ltb, SFleb, SFltb. intros Nx Ny.
  rewrite !SFcompare_key by assumption.
  rewrite (lex3_antisym (key x) (key y)).
  destruct (lex3 (key x) (key y)); reflexivity.
Qed.

End F64Order.

(** ** Minimum and maximum of a batch

    [min]/[ndarray.min] and [max]/[ndarray.max] are the same code up to the
    direction of the comparison: [lt] is [<] and [le] is [<=] for the
    minimum, [>] and [>=] for the maximum. *)

Lemma nan_free_app l1 l2 : nan_free (l1 ++ l2) <-> nan_free l1 /\ nan_free l2.
Proof. apply Forall_app. Qed.

Section Pick.

Variables lt le : float -> float -> bool.
Hypothesis lt_trans : forall x y z,
  lt x y = true -> lt y z = true -> lt x z = true.
Hypothesis nlt_trans : forall x y z,
  is_nan y = false -> lt y x = false -> lt z y = false -> lt z x = false.
Hypothesis le_nlt : forall x y,
  is_nan x = false -> is_nan y = false -> le x y = negb (lt y x).

Definition py_pick (a b : float) : float := if lt b a then b else a.
Definition np_pick (a b : float) : float := if le a b || is_nan a then a else b.

(** Away from NaN the two builtins select the same operand. *)
Lemma np_pick_py_pick a b :
  is_nan a = false -> is_nan b = false -> np_pick a b = py_pick a b.
Proof.
  intros Na Nb. unfold np_pick, py_pick.
  rewrite (le_nlt a b Na Nb), Na, orb_false_r.
  destruct (lt b a); reflexivity.
Qed.

Lemma py_pick_nan a b :
  is_nan a = false -> is_nan b = false -> is_nan (py_pick a b) = false.
Proof. intros Na Nb. unfold py_pick. now destruct (lt b a). Qed.

(** Selecting the first of the smallest operands is associative. *)
Lemma py_pick_assoc a b c :
  is_nan b = false -> py_pick (py_pick a b) c = py_pick a (py_pick b c).
Proof.
  intros Nb. unfold py_pick.
  destruct (lt b a) eqn:Eba, (lt c b) eqn:Ecb; rewrite ?Eba; try reflexivity.
  - now rewrite (lt_trans _ _ _ Ecb Eba).
  - now rewrite (nlt_trans a b c Nb Eba Ecb).
Qed.

Lemma np_fold_py_fold xs : forall x,
  nan_free (x :: xs) -> fold_left np_pick xs x = fold_left py_pick xs x.
Proof.
  induction xs as [|y ys IH]; intros x Hnf; [reflexivity|].
  inversion Hnf as [|? ? Nx Hnf']; subst.
  inversion Hnf' as [|? ? Ny Hnf'']; subst.
  simpl. rewrite (np_pick_py_pick x y Nx Ny). apply IH.
  constructor; [now apply py_pick_nan|assumption].
Qed.

Lemma py_pick_fold xs : forall m x,
  nan_free (x :: xs) ->
  py_pick m (fold_left py_pick xs x) = fold_left py_pick (x :: xs) m.
Proof.
  induction xs as [|y ys IH]; intros m x Hnf; [reflexivity|].
  inversion Hnf as [|? ? Nx Hnf']; subst.
  inversion Hnf' as [|? ? Ny Hnf'']; subst.
  cbn [fold_left]. rewrite IH by (constructor; [now apply py_pick_nan|assumption]).
  cbn [fold_left]. now rewrite py_pick_assoc.
Qed.

(** Folding a batch into a running bound is folding its values one by one. *)
Lemma pick_batch m x xs :
  nan_free (x :: xs) ->
  py_pick m (fold_left np_pick xs x) = fold_left py_pick (x :: xs) m.
Proof.
  intros Hnf. rewrite np_fold_py_fold by assumption. now apply py_pick_fold.
Qed.

End Pick.

(** The two instances. *)
Lemma py_min_batch m x xs :
  nan_free (x :: xs) -> py_min m (np_min x xs) = fold_left py_min (x :: xs) m.
Proof.
  apply (pick_batch ltb leb F64Order.ltb_trans).
  - intros a b c Nb H1 H2. exact (F64Order.fle_trans a b c Nb H1 H2).
  - apply F64Order.leb_nlt.
Qed.

Lemma py_max_batch m x xs :
  nan_free (x :: xs) -> py_max m (np_max x xs) = fold_left py_max (x :: xs) m.
Proof.
  apply (pick_batch gtb geb).
  - unfold gtb. intros a b c H1 H2. exact (F64Order.ltb_trans c b a H2 H1).
  - unfold gtb. intros a b c Nb H1 H2. exact (F64Order.fle_trans c b a Nb H2 H1).
  - unfold gtb, geb. intros a b Na Nb. now apply F64Order.leb_nlt.
Qed.

(** ** The accumulator *)

Lemma to_numpy_pl_Series (a : list float) : to_numpy (pl_Series a) = a.
Proof.
  unfold to_numpy, pl_Series. rewrite map_map. apply map_id.
Qed.

Lemma to_numpy_app (a b : Series) : to_numpy (a ++ b) = to_numpy a ++ to_numpy b.
Proof. apply map_app. Qed.

Lemma update_from_batch_cons (s : Stats) (prices : Series) x xs :
  to_numpy prices = x :: xs ->
  update_from_batch s prices =
    {| COUNT := COUNT s + Z.of_nat (length (x :: xs));
       SUM := add (SUM s) (np_sum (x :: xs));
       MIN_VALUE := py_min (MIN_VALUE s) (np_min x xs);
       MAX_VALUE := py_max (MAX_VALUE s) (np_max x xs) |}.
Proof. unfold update_from_batch. now intros ->. Qed.

(** What a state [s] owes to the state [s0] it started from and to the
    values [seen] since: the count, and, as long as no value is NaN, the
    bounds that [min] and [max] give when the values are taken one by one. *)
Definition stats_inv (s0 : Stats) (seen : list float) (s : Stats) : Prop :=
  COUNT s = COUNT s0 + Z.of_nat (length seen) /\
  (nan_free seen -> MIN_VALUE s = fold_left py_min seen (MIN_VALUE s0)) /\
  (nan_free seen -> MAX_VALUE s = fold_left py_max seen (MAX_VALUE s0)).

Lemma stats_inv_init (s0 : Stats) : stats_inv s0 [] s0.
Proof. unfold stats_inv. simpl. repeat split; lia. Qed.

Lemma stats_inv_update s0 seen s (prices : Series) :
  stats_inv s0 seen s ->
  stats_inv s0 (seen ++ to_numpy prices) (update_from_batch s prices).
Proof.
  intros (Hc & Hmin & Hmax).
  destruct (to_numpy prices) as [|x xs] eqn:E.
  - unfold update_from_batch. rewrite E, app_nil_r.
    unfold stats_inv. auto.
  - rewrite (update_from_batch_cons s prices x xs E). unfold stats_inv.
    cbn [COUNT MIN_VALUE MAX_VALUE]. split; [|split].
    + rewrite Hc, length_app. lia.
    + intros Hnf. apply nan_free_app in Hnf. destruct Hnf as (H1 & H2).
      now rewrite py_min_batch, fold_left_app, <- Hmin.
    + intros Hnf. apply nan_free_app in Hnf. destruct Hnf as (H1 & H2).
      now rewrite py_max_batch, fold_left_app, <- Hmax.
Qed.

Lemma stats_inv_agree s0 seen s1 s2 :
  stats_inv s0 seen s1 -> stats_inv s0 seen s2 ->
  COUNT s1 = COUNT s2 /\
  (nan_free seen -> MIN_VALUE s1 = MIN_VALUE s2) /\
  (nan_free seen -> MAX_VALUE s1 = MAX_VALUE s2).
Proof.
  intros (Hc1 & Hmin1 & Hmax1) (Hc2 & Hmin2 & Hmax2).
  split; [lia|]. split; intros Hnf.
  - now rewrite Hmin1, Hmin2.
  - now rewrite Hmax1, Hmax2.
Qed.

(** One step of the accumulator never moves a bound the wrong way. *)
Lemma update_from_batch_step (s : Stats) (prices : Series) :
  let s' := update_from_batch s prices in
  COUNT s <= COUNT s' /\
  (MIN_VALUE s' = MIN_VALUE s \/ ltb (MIN_VALUE s') (MIN_VALUE s) = true) /\
  (MAX_VALUE s' = MAX_VALUE s \/ ltb (MAX_VALUE s) (MAX_VALUE s') = true).
Proof.
  unfold update_from_batch. destruct (to_numpy prices) as [|x xs].
  - simpl. split; [lia|]. split; now left.
  - cbn [COUNT MIN_VALUE MAX_VALUE]. split; [lia|]. split.
    + unfold py_min. destruct (ltb (np_min x xs) (MIN_VALUE s)) eqn:E; auto.
    + unfold py_max, gtb.
      destruct (ltb (MAX_VALUE s) (np_max x xs)) eqn:E; auto.
Qed.

Lemma reachable_count (s : Stats) :
  reachable s -> s = Stats_init \/ 0 < COUNT s.
Proof.
  induction 1 as [|s prices _ IH]; [now left|].
  unfold update_from_batch. destruct (to_numpy prices) as [|x xs]; [exact IH|].
  right. cbn [COUNT]. destruct IH as [->|IH]; simpl; lia.
Qed.

(** C2, as stated, fails on the sums: binary64 addition is not associative.
    From the state reached after the single price 1e16, the batches [1.0]
    and [1.0] fed one after the other leave SUM at 1e16 (each 1.0 is lost
    to rounding), the batch [1.0, 1.0] fed at once gives 1e16 + 2.  It fails
    on the bounds when a value is NaN: from the initial state, [NaN] then
    [1.0] ends at MIN_VALUE 1.0 and MAX_VALUE 1.0, [NaN, 1.0] at once leaves
    the sentinels. *)
Lemma update_from_batch_split_sum_differs :
  let s := update_from_batch Stats_init (pl_Series [of_Z (10 ^ 16)]) in
  let a := [of_Z 1] in
  let b := [of_Z 1] in
  let a' := [nan] in
  (a <> [] /\ b <> [] /\
   SUM (update_from_batch (update_from_batch s (pl_Series a)) (pl_Series b))
     = of_Z (10 ^ 16) /\
   SUM (update_from_batch s (pl_Series (a ++ b))) = of_Z (10 ^ 16 + 2) /\
   eqb (SUM (update_from_batch (update_from_batch s (pl_Series a)) (pl_Series b)))
       (SUM (update_from_batch s (pl_Series (a ++ b)))) = false) /\
  (MIN_VALUE (update_from_batch (update_from_batch Stats_init (pl_Series a'))
                (pl_Series b)) = of_Z 1 /\
   MIN_VALUE (update_from_batch Stats_init (pl_Series (a' ++ b))) = inf /\
   MAX_VALUE (update_from_batch (update_from_batch Stats_init (pl_Series a'))
                (pl_Series b)) = of_Z 1 /\
   MAX_VALUE (update_from_batch Stats_init (pl_Series (a' ++ b))) = neg_inf).
Proof.
  cbv zeta. split.
  - split; [discriminate|]. split; [discriminate|].
    split; [|split]; vm_compute; reflexivity.
  - repeat split; vm_compute; reflexivity.
Qed.

(** C2 (amended): for every state and all non-empty float sequences [a] and
    [b], feeding [a] then [b] gives the same COUNT as feeding [a ++ b], and,
    when no value of [a] or [b] is NaN, the same MIN_VALUE and MAX_VALUE.
    The sums are [(SUM + sum a) + sum b] and [SUM + sum (a ++ b)], rounded at
    every addition. *)
Theorem update_from_batch_split (s : Stats) (a b : list float) :
  a <> [] -> b <> [] ->
  let s2 := update_from_batch (update_from_batch s (pl_Series a)) (pl_Series b) in
  let s1 := update_from_batch s (pl_Series (a ++ b)) in
  COUNT s2 = COUNT s1 /\
  (nan_free (a ++ b) ->
   MIN_VALUE s2 = MIN_VALUE s1 /\ MAX_VALUE s2 = MAX_VALUE s1) /\
  SUM s2 = add (add (SUM s) (np_sum a)) (np_sum b) /\
  SUM s1 = add (SUM s) (np_sum (a ++ b)).
Proof.
  intros Ha Hb s2 s1.
  assert (I2 : stats_inv s (a ++ b) s2).
  { subst s2.
    rewrite <- (to_numpy_pl_Series a) at 1. rewrite <- (to_numpy_pl_Series b) at 1.
    apply stats_inv_update.
    rewrite <- (app_nil_l (to_numpy (pl_Series a))).
    apply stats_inv_update, stats_inv_init. }
  assert (I1 : stats_inv s (a ++ b) s1).
  { subst s1. rewrite <- (to_numpy_pl_Series (a ++ b)) at 1.
    rewrite <- (app_nil_l (to_numpy _)).
    apply stats_inv_update, stats_inv_init. }
  destruct (stats_inv_agree _ _ _ _ I2 I1) as (Hc & Hmin & Hmax).
  split; [exact Hc|]. split; [now auto|].
  subst s1 s2. split.
  - destruct a as [|x xs]; [congruence|]. destruct b as [|y ys]; [congruence|].
    rewrite (update_from_batch_cons _ _ y ys (to_numpy_pl_Series _)).
    rewrite (update_from_batch_cons _ _ x xs (to_numpy_pl_Series _)).
    reflexivity.
  - destruct a as [|x xs]; [congruence|].
    rewrite (update_from_batch_cons _ _ x (xs ++ b) (to_numpy_pl_Series _)).
    reflexivity.
Qed.

Lemma update_from_batch_split_witness :
  COUNT (update_from_batch (update_from_batch Stats_init (pl_Series [of_Z 3]))
           (pl_Series [of_Z 1; of_Z 2]))
  = COUNT (update_from_batch Stats_init (pl_Series ([of_Z 3] ++ [of_Z 1; of_Z 2]))).
Proof.
  refine (proj1 (update_from_batch_split Stats_init [of_Z 3] [of_Z 1; of_Z 2] _ _));
    discriminate.
Defined.

(** C4, as stated, fails on SUM: a batch of negative prices lowers it.  From
    the initial state the batch [-1.0] takes SUM from 0.0 to -1.0. *)
Lemma update_from_batch_sum_decreases :
  let s := Stats_init in
  let s' := update_from_batch s (pl_Series [of_Z (-1)]) in
  SUM s = zero /\ SUM s' = of_Z (-1) /\ ltb (SUM s') (SUM s) = true.
Proof. cbv zeta. repeat split; vm_compute; reflexivity. Qed.

(** C4 (amended): over every sequence of [update_from_batch] calls COUNT
    never decreases, MIN_VALUE stays or gets strictly smaller and MAX_VALUE
    stays or gets strictly greater; SUM is moved by the sum of each non-empty
    batch, whatever its sign. *)
Theorem update_from_batch_monotone (s : Stats) (batches : list Series) :
  let s' := fold_left update_from_batch batches s in
  COUNT s <= COUNT s' /\
  (MIN_VALUE s' = MIN_VALUE s \/ ltb (MIN_VALUE s') (MIN_VALUE s) = true) /\
  (MAX_VALUE s' = MAX_VALUE s \/ ltb (MAX_VALUE s) (MAX_VALUE s') = true) /\
  (forall prices, prices <> [] ->
     SUM (update_from_batch s prices) = add (SUM s) (np_sum (to_numpy prices))).
Proof.
  cbv zeta. split; [|split; [|split]].
  - revert s. induction batches as [|b bs IH]; intros s; simpl; [lia|].
    specialize (IH (update_from_batch s b)).
    pose proof (update_from_batch_step s b) as (H & _). lia.
  - revert s. induction batches as [|b bs IH]; intros s; simpl; [now left|].
    specialize (IH (update_from_batch s b)).
    pose proof (update_from_batch_step s b) as (_ & H & _).
    destruct IH as [IH|IH], H as [H|H].
    + left. congruence.
    + right. now rewrite IH.
    + right. now rewrite <- H.
    + right. eapply F64Order.ltb_trans; eauto.
  - revert s. induction batches as [|b bs IH]; intros s; simpl; [now left|].
    specialize (IH (update_from_batch s b)).
    pose proof (update_from_batch_step s b) as (_ & _ & H).
    destruct IH as [IH|IH], H as [H|H].
    + left. congruence.
    + right. now rewrite IH.
    + right. now rewrite <- H.
    + right. eapply F64Order.ltb_trans; eauto.
  - intros [|c cs] Hne; [congruence|]. reflexivity.
Qed.

(** C8: before any update, and in every state a run reaches with a COUNT
    of 0, the bounds are the infinite sentinels and [get_current_stats]
    returns count 0 and 0.0 for the mean, the minimum and the maximum.  The
    mean is not a field of the state: it is [SUM / COUNT] when COUNT is
    positive and 0.0 otherwise. *)
Theorem get_current_stats_no_data (s : Stats) :
  reachable s -> COUNT s = 0 ->
  MIN_VALUE s = inf /\ MAX_VALUE s = neg_inf /\
  get_current_stats s = Some snapshot_zero /\
  _mean s = Some zero /\
  (forall t c, 0 < COUNT t -> of_int (COUNT t) = Some c ->
     _mean t = Some (div (SUM t) c)) /\
  (forall t, COUNT t <= 0 -> _mean t = Some zero).
Proof.
  intros Hr Hc. destruct (reachable_count s Hr) as [->|H]; [|lia].
  repeat split.
  - intros t c Ht Hof. unfold _mean.
    destruct (0 <? COUNT t) eqn:E; [|apply Z.ltb_ge in E; lia].
    now rewrite Hof.
  - intros t Ht. unfold _mean.
    destruct (0 <? COUNT t) eqn:E; [apply Z.ltb_lt in E; lia|reflexivity].
Qed.

Lemma get_current_stats_initial :
  MIN_VALUE Stats_init = inf /\ MAX_VALUE Stats_init = neg_inf /\
  get_current_stats Stats_init = Some snapshot_zero.
Proof.
  pose proof (get_current_stats_no_data Stats_init reach_init eq_refl)
    as (H1 & H2 & H3 & _).
  exact (conj H1 (conj H2 H3)).
Defined.

(** C9: [update_from_batch] on an empty series changes nothing: the state,
    hence COUNT, SUM, MIN_VALUE and MAX_VALUE, and the snapshot taken next
    are what they were. *)
Theorem update_from_batch_nil (s : Stats) :
  update_from_batch s [] = s /\
  COUNT (update_from_batch s []) = COUNT s /\
  SUM (update_from_batch s []) = SUM s /\
  MIN_VALUE (update_from_batch s []) = MIN_VALUE s /\
  MAX_VALUE (update_from_batch s []) = MAX_VALUE s /\
  get_current_stats (update_from_batch s []) = get_current_stats s.
Proof. repeat split. Qed.

(** ** Running methods *)

Lemma bind_Return {A B} (c : M A) (k : A -> M B) p a p' :
  c p = (Return a, p') -> bind c k p = k a p'.
Proof. unfold bind. now intros ->. Qed.

(** The state a successful step leads to. *)
Definition upd (p : Pipeline) (s : Stats) (c : option connection)
    (t : list event) : Pipeline :=
  {| chunk_size := chunk_size p; stats := s; conn := c; trace := t |}.

Definition add_pending (c : connection) (rs : list record) : connection :=
  with_conn c (committed c) (pending c ++ rs) false.

Lemma add_pending_add_pending c rs rs' :
  add_pending (add_pending c rs) rs' = add_pending c (rs ++ rs').
Proof. unfold add_pending, with_conn. simpl. now rewrite app_assoc. Qed.

Lemma the_session_ok p c :
  conn p = Some c -> closed c = false -> the_session p = (Return c, p).
Proof.
  intros Hc Ho. unfold the_session, bind, get. rewrite Hc, Ho. reflexivity.
Qed.

Lemma insert_row_ok p c r :
  conn p = Some c -> closed c = false -> accepts c r = true ->
  insert_row r p = (Return tt, upd p (stats p) (Some (add_pending c [r])) (trace p)).
Proof.
  intros Hc Ho Ha. unfold insert_row.
  rewrite (bind_Return _ _ _ _ _ (the_session_ok p c Hc Ho)), Ha. reflexivity.
Qed.

Lemma insert_rows_ok rs : forall p c,
  conn p = Some c -> closed c = false -> accepting c ->
  forM rs insert_row p
  = (Return tt, upd p (stats p) (Some (add_pending c rs)) (trace p)).
Proof.
  induction rs as [|r rs IH]; intros p c Hc Ho Ha.
  - simpl. unfold ret, add_pending, with_conn. rewrite app_nil_r.
    destruct p as [cs st cn tr]; simpl in *. subst cn. destruct c; simpl in *.
    now subst.
  - simpl. rewrite (bind_Return _ _ _ _ _ (insert_row_ok p c r Hc Ho (Ha r))).
    rewrite (IH _ (add_pending c [r])); try reflexivity.
    + rewrite add_pending_add_pending. reflexivity.
    + intros r'. apply Ha.
Qed.

Lemma log_eq e p :
  log e p = (Return tt, upd p (stats p) (conn p) (trace p ++ [e])).
Proof. reflexivity. Qed.

Lemma execute_batch_ok rs p c :
  conn p = Some c -> closed c = false -> accepting c ->
  execute_batch rs p
  = (Return tt, upd p (stats p) (Some (add_pending c rs))
                  (trace p ++ [EvExecuteBatch (length rs)])).
Proof.
  intros Hc Ho Ha. unfold execute_batch.
  rewrite (bind_Return _ _ _ _ _ (log_eq _ p)).
  rewrite (insert_rows_ok rs _ c); auto.
Qed.

Lemma cursor_execute_ok r p c :
  conn p = Some c -> closed c = false -> accepts c r = true ->
  cursor_execute r p
  = (Return tt, upd p (stats p) (Some (add_pending c [r])) (trace p ++ [EvExecute])).
Proof.
  intros Hc Ho Ha. unfold cursor_execute.
  rewrite (bind_Return _ _ _ _ _ (log_eq _ p)).
  rewrite (insert_row_ok _ c); auto.
Qed.

Lemma stats_update_from_batch_eq prices p :
  stats_update_from_batch prices p
  = (Return tt, upd p (update_from_batch (stats p) prices) (conn p) (trace p)).
Proof. reflexivity. Qed.

(** *** Rows that parse *)

Definition to_record (filename : string) (r : Row) : record :=
  {| timestamp := match strptime (row_date r) with
                  | Some ts => ts
                  | None => {| year := 1; month := 1; day := 1 |}
                  end;
     price := match row_price r with Some x => x | None => zero end;
     user_id := row_user r;
     file_source := filename |}.

Lemma _prepare_records_ok chunk filename p :
  Forall valid_row chunk ->
  _prepare_records chunk filename p = (Return (map (to_record filename) chunk), p).
Proof.
  unfold _prepare_records. induction 1 as [|r rs Hr _ IH]; [reflexivity|].
  simpl. unfold valid_row in Hr. unfold to_record at 1.
  destruct (strptime (row_date r)) as [ts|] eqn:E; [|congruence].
  cbn [row_price row_date row_user].
  rewrite (bind_Return _ _ _ _ _ IH). unfold ret.
  destruct (row_price r); reflexivity.
Qed.

(** *** The two policies on one window *)

Definition single_updates (s : Stats) (values : list float) : Stats :=
  fold_left (fun s x => update_from_batch s (pl_Series [x])) values s.

Definition policy_stats (update_per_row : bool) (s : Stats) (col : Series) : Stats :=
  if update_per_row then single_updates s (to_numpy col)
  else update_from_batch s col.

Definition policy_events (update_per_row : bool) (n : nat) : list event :=
  if update_per_row then repeat EvExecute n else [EvExecuteBatch n].

Lemma _process_batch_ok records chunk p c :
  conn p = Some c -> closed c = false -> accepting c ->
  _process_batch records chunk p
  = (Return tt, upd p (update_from_batch (stats p) (get_column_price chunk))
                  (Some (add_pending c records))
                  (trace p ++ [EvExecuteBatch (length records)])).
Proof.
  intros Hc Ho Ha. unfold _process_batch.
  rewrite (bind_Return _ _ _ _ _ (execute_batch_ok records p c Hc Ho Ha)).
  reflexivity.
Qed.

Lemma row_by_row_from_ok records : forall i prices p c,
  conn p = Some c -> closed c = false -> accepting c ->
  (i + length records <= length prices)%nat ->
  row_by_row_from i records prices p
  = (Return tt, upd p (single_updates (stats p)
                         (firstn (length records) (skipn i prices)))
                  (Some (add_pending c records))
                  (trace p ++ repeat EvExecute (length records))).
Proof.
  induction records as [|r rs IH]; intros i prices p c Hc Ho Ha Hlen.
  - simpl. unfold ret, add_pending, with_conn. rewrite !app_nil_r.
    destruct p as [cs st cn tr]; simpl in *. subst cn. destruct c; simpl in *.
    now subst.
  - simpl in Hlen. cbn [row_by_row_from].
    rewrite (bind_Return _ _ _ _ _ (cursor_execute_ok r p c Hc Ho (Ha r))).
    destruct (nth_error prices i) as [x|] eqn:E.
    2:{ apply nth_error_None in E. lia. }
    rewrite (bind_Return _ _ _ _ _ (stats_update_from_batch_eq _ _)).
    rewrite (IH (S i) prices _ (add_pending c [r])); try reflexivity; try lia.
    + rewrite add_pending_add_pending.
      assert (Hsk : skipn i prices = x :: skipn (S i) prices).
      { clear -E. revert prices E. induction i as [|i IHi]; intros [|y ys] E;
          simpl in *; try discriminate.
        - now inversion E.
        - now apply IHi. }
      rewrite Hsk. cbn [length firstn single_updates fold_left upd stats conn trace chunk_size].
      rewrite <- app_assoc. reflexivity.
    + intros r'. apply Ha.
Qed.

Lemma _process_row_by_row_ok records chunk p c :
  conn p = Some c -> closed c = false -> accepting c ->
  length records = length chunk ->
  _process_row_by_row records chunk p
  = (Return tt, upd p (single_updates (stats p) (to_numpy (get_column_price chunk)))
                  (Some (add_pending c records))
                  (trace p ++ repeat EvExecute (length records))).
Proof.
  intros Hc Ho Ha Hlen. unfold _process_row_by_row.
  assert (Hl : length (to_numpy (get_column_price chunk)) = length records).
  { unfold to_numpy, get_column_price. now rewrite !length_map. }
  rewrite (row_by_row_from_ok records 0 _ p c Hc Ho Ha) by (rewrite Hl; lia).
  cbn [skipn]. rewrite <- Hl, firstn_all. reflexivity.
Qed.

(** *** One iteration of the loop *)

Definition window (lf : DataFrame) (offset length : Z) : DataFrame :=
  firstn (Z.to_nat length) (skipn (Z.to_nat offset) lf).

Lemma slice_collect_ok lf offset length p :
  0 <= length ->
  slice_collect lf offset length p
  = (Return (window lf offset length),
     upd p (stats p) (conn p)
       (trace p ++ [EvSlice offset length (List.length (window lf offset length))])).
Proof.
  intros H. unfold slice_collect.
  destruct (length <? 0) eqn:E; [apply Z.ltb_lt in E; lia|]. reflexivity.
Qed.

(** The state after a window that is not empty has been processed. *)
Definition after_window (update_per_row : bool) (filename : string)
    (offset : Z) (chunk : DataFrame) (c : connection) (p : Pipeline) : Pipeline :=
  upd p (policy_stats update_per_row (stats p) (get_column_price chunk))
    (Some (add_pending c (map (to_record filename) chunk)))
    (trace p ++ EvSlice offset (chunk_size p) (length chunk)
       :: policy_events update_per_row (length chunk)).

Lemma process_windows_stop fuel lf filename update_per_row offset total p :
  0 <= chunk_size p ->
  window lf offset (chunk_size p) = [] ->
  process_windows (S fuel) lf filename update_per_row offset total p
  = (Return total,
     upd p (stats p) (conn p) (trace p ++ [EvSlice offset (chunk_size p) 0%nat])).
Proof.
  intros Hcs Hw. cbn [process_windows].
  unfold bind at 1, get.
  rewrite (bind_Return _ _ _ _ _ (slice_collect_ok lf offset _ p Hcs)).
  rewrite Hw. reflexivity.
Qed.

Lemma process_windows_step fuel lf filename update_per_row offset total p c :
  conn p = Some c -> closed c = false -> accepting c ->
  0 <= chunk_size p ->
  let chunk := window lf offset (chunk_size p) in
  Forall valid_row chunk -> chunk <> [] ->
  process_windows (S fuel) lf filename update_per_row offset total p
  = process_windows fuel lf filename update_per_row
      (offset + chunk_size p) (total + Z.of_nat (length chunk))
      (after_window update_per_row filename offset chunk c p).
Proof.
  intros Hc Ho Ha Hcs chunk Hv Hne. cbn [process_windows].
  unfold bind at 1, get.
  rewrite (bind_Return _ _ _ _ _ (slice_collect_ok lf offset _ p Hcs)).
  fold chunk.
  destruct (length chunk =? 0)%nat eqn:E.
  { apply Nat.eqb_eq in E. destruct chunk; [congruence|discriminate]. }
  rewrite (bind_Return _ _ _ _ _ (_prepare_records_ok chunk filename _ Hv)).
  set (p1 := upd p (stats p) (conn p) (trace p ++ [EvSlice offset (chunk_size p) (length chunk)])).
  assert (Hc1 : conn p1 = Some c) by exact Hc.
  destruct update_per_row.
  - rewrite (bind_Return _ _ _ _ _
               (_process_row_by_row_ok _ chunk p1 c Hc1 Ho Ha (length_map _ _))).
    rewrite length_map. unfold after_window, policy_stats, policy_events, p1.
    cbn [upd stats conn trace chunk_size]. rewrite <- app_assoc. reflexivity.
  - rewrite (bind_Return _ _ _ _ _ (_process_batch_ok _ chunk p1 c Hc1 Ho Ha)).
    rewrite length_map. unfold after_window, policy_stats, policy_events, p1.
    cbn [upd stats conn trace chunk_size]. rewrite <- app_assoc. reflexivity.
Qed.

(** *** Windows of a list *)

Lemma window_length lf offset length :
  List.length (window lf offset length)
  = Nat.min (Z.to_nat length) (List.length lf - Z.to_nat offset).
Proof. unfold window. now rewrite length_firstn, length_skipn. Qed.

Lemma skipn_window (lf : DataFrame) (k n : nat) :
  skipn k lf = firstn n (skipn k lf) ++ skipn (k + n) lf.
Proof.
  rewrite Nat.add_comm, <- skipn_skipn. symmetry. apply firstn_skipn.
Qed.

Lemma Forall_window (P : Row -> Prop) lf offset length :
  Forall P lf -> Forall P (window lf offset length).
Proof.
  intros H. unfold window.
  rewrite <- (firstn_skipn (Z.to_nat offset) lf) in H.
  apply Forall_app in H. destruct H as (_ & H).
  rewrite <- (firstn_skipn (Z.to_nat length) (skipn (Z.to_nat offset) lf)) in H.
  apply Forall_app in H. apply H.
Qed.

(** *** The loop on a well-formed file and a willing server *)

Lemma add_pending_nil c : closed c = false -> add_pending c [] = c.
Proof.
  intros H. destruct c; unfold add_pending, with_conn; simpl in *.
  subst. now rewrite app_nil_r.
Qed.

Lemma single_updates_inv s0 values : forall seen s,
  stats_inv s0 seen s -> stats_inv s0 (seen ++ values) (single_updates s values).
Proof.
  induction values as [|x xs IH]; intros seen s H.
  - now rewrite app_nil_r.
  - simpl. replace (seen ++ x :: xs) with ((seen ++ [x]) ++ xs)
      by (now rewrite <- app_assoc).
    apply IH. apply (stats_inv_update s0 seen s (pl_Series [x])), H.
Qed.

Lemma policy_stats_inv update_per_row s0 seen s col :
  stats_inv s0 seen s ->
  stats_inv s0 (seen ++ to_numpy col) (policy_stats update_per_row s col).
Proof.
  destruct update_per_row; simpl.
  - apply single_updates_inv.
  - apply stats_inv_update.
Qed.

(** The reads the loop makes on a file of [len] rows from row [k] on, the
    last of them empty. *)
Fixpoint slices_from (fuel : nat) (size : Z) (len k : nat) : list event :=
  match fuel with
  | O => []
  | S fuel' =>
      let height := Nat.min (Z.to_nat size) (len - k) in
      EvSlice (Z.of_nat k) size height
        :: (if (height =? 0)%nat then []
            else slices_from fuel' size len (k + Z.to_nat size))
  end.

Lemma slices_app t1 t2 : slices (t1 ++ t2) = slices t1 ++ slices t2.
Proof. apply filter_app. Qed.

Lemma slices_policy_events update_per_row n :
  slices (policy_events update_per_row n) = [].
Proof.
  destruct update_per_row; simpl; [|reflexivity].
  induction n as [|n IH]; [reflexivity|exact IH].
Qed.

Lemma process_windows_ok fuel : forall lf filename update_per_row (k : nat) total p c,
  conn p = Some c -> closed c = false -> accepting c ->
  0 < chunk_size p -> Forall valid_row lf ->
  (length lf - k < fuel)%nat ->
  exists p',
    process_windows fuel lf filename update_per_row (Z.of_nat k) total p
    = (Return (total + Z.of_nat (length (skipn k lf))), p') /\
    chunk_size p' = chunk_size p /\
    conn p' = Some (add_pending c (map (to_record filename) (skipn k lf))) /\
    (forall s0 seen,
       stats_inv s0 seen (stats p) ->
       stats_inv s0 (seen ++ to_numpy (get_column_price (skipn k lf))) (stats p')) /\
    slices (trace p')
    = slices (trace p) ++ slices_from fuel (chunk_size p) (length lf) k.
Proof.
  induction fuel as [|fuel IH];
    intros lf filename update_per_row k total p c Hc Ho Ha Hcs Hv Hfuel; [lia|].
  pose proof (window_length lf (Z.of_nat k) (chunk_size p)) as Hlen.
  rewrite Nat2Z.id in Hlen.
  destruct (window lf (Z.of_nat k) (chunk_size p)) as [|r chunk'] eqn:Hw.
  - (* the window is empty: the file is exhausted *)
    assert (Hk : (length lf <= k)%nat) by (simpl in Hlen; lia).
    rewrite (skipn_all2 lf Hk).
    rewrite process_windows_stop by (lia || assumption).
    eexists. split; [cbn [length Z.of_nat]; now rewrite Z.add_0_r|].
    cbn [upd chunk_size conn stats map get_column_price to_numpy].
    split; [reflexivity|]. split; [now rewrite add_pending_nil|]. split.
    + intros s0 seen H. now rewrite app_nil_r.
    + cbn [upd trace]. rewrite slices_app. cbn [slices_from].
      rewrite <- Hlen. reflexivity.
  - set (chunk := r :: chunk') in *.
    assert (Hne : chunk <> []) by discriminate.
    assert (Hvc : Forall valid_row chunk)
      by (rewrite <- Hw; now apply Forall_window).
    pose proof (process_windows_step fuel lf filename update_per_row
                  (Z.of_nat k) total p c Hc Ho Ha ltac:(lia)) as Hstep.
    cbv zeta in Hstep. rewrite Hw in Hstep. fold chunk in Hstep.
    rewrite (Hstep Hvc Hne). clear Hstep.
    set (n := Z.to_nat (chunk_size p)).
    assert (Hn : (1 <= n)%nat) by (unfold n; lia).
    assert (Hoff : Z.of_nat k + chunk_size p = Z.of_nat (k + n)) by (unfold n; lia).
    rewrite Hoff.
    assert (Hsplit : skipn k lf = chunk ++ skipn (k + n) lf).
    { rewrite <- Hw. unfold window. rewrite Nat2Z.id. apply skipn_window. }
    destruct (IH lf filename update_per_row (k + n)%nat
                (total + Z.of_nat (length chunk))
                (after_window update_per_row filename (Z.of_nat k) chunk c p)
                (add_pending c (map (to_record filename) chunk)))
      as (p' & Hrun & Hcs' & Hconn & Hinv & Hsl); try reflexivity; try assumption.
    + unfold chunk in Hlen. cbn [length] in Hlen. fold n in Hlen. lia.
    + exists p'. split; [|split; [|split; [|split]]].
      * rewrite Hrun, Hsplit, length_app.
        replace (total + Z.of_nat (length chunk)
                 + Z.of_nat (length (skipn (k + n) lf)))
          with (total + Z.of_nat (length chunk + length (skipn (k + n) lf)))
          by lia.
        reflexivity.
      * exact Hcs'.
      * rewrite Hconn, add_pending_add_pending, Hsplit, map_app. reflexivity.
      * intros s0 seen H. rewrite Hsplit. unfold get_column_price.
        rewrite map_app, to_numpy_app, app_assoc. apply Hinv.
        unfold after_window. cbn [upd stats].
        now apply policy_stats_inv.
      * rewrite Hsl. unfold after_window. cbn [upd trace chunk_size slices_from].
        rewrite slices_app. cbn [slices filter is_slice].
        fold (slices (policy_events update_per_row (length chunk))).
        rewrite slices_policy_events, <- Hlen. fold n.
        unfold chunk at 2. cbn [length Nat.eqb]. fold chunk.
        rewrite <- app_assoc. reflexivity.
Qed.

Lemma try_except_Return {A} (body : M A) handler p a p' :
  body p = (Return a, p') -> try_except body handler p = (Return a, p').
Proof. unfold try_except. now intros ->. Qed.

Lemma connection_commit_ok p c :
  conn p = Some c -> closed c = false ->
  connection_commit p
  = (Return tt, upd p (stats p)
                  (Some (with_conn c (committed c ++ pending c) [] false))
                  (trace p ++ [EvCommit])).
Proof.
  intros Hc Ho. unfold connection_commit.
  rewrite (bind_Return _ _ _ _ _ (the_session_ok p c Hc Ho)).
  reflexivity.
Qed.

(** On a file that exists and parses, with a positive window size and an
    open session that accepts the rows, [process_csv_file] returns the number
    of rows of the file; the rows pending before the call and those of the
    file are committed, and the accumulator has taken in the price column. *)
Lemma process_csv_file_ok fs filepath update_per_row lf p c :
  fs filepath = Some lf ->
  conn p = Some c -> closed c = false -> accepting c ->
  0 < chunk_size p -> Forall valid_row lf ->
  exists p',
    process_csv_file fs filepath update_per_row p
    = (Return (Z.of_nat (length lf)), p') /\
    chunk_size p' = chunk_size p /\
    conn p' = Some (with_conn c
                      (committed c ++ pending c
                         ++ map (to_record (basename filepath)) lf) [] false) /\
    (forall s0 seen,
       stats_inv s0 seen (stats p) ->
       stats_inv s0 (seen ++ to_numpy (get_column_price lf)) (stats p')) /\
    slices (trace p')
    = slices (trace p)
        ++ slices_from (S (length lf)) (chunk_size p) (length lf) 0.
Proof.
  intros Hfs Hc Ho Ha Hcs Hv. unfold process_csv_file.
  rewrite (bind_Return _ _ _ _ _ (log_eq _ p)).
  set (p0 := upd p (stats p) (conn p) (trace p ++ [EvProcess filepath update_per_row])).
  assert (Hc0 : conn p0 = Some c) by exact Hc.
  destruct (process_windows_ok (S (length lf)) lf (basename filepath)
              update_per_row 0%nat 0 p0 c Hc0 Ho Ha Hcs Hv ltac:(lia))
    as (p1 & Hrun & Hcs1 & Hconn1 & Hinv & Hsl).
  cbn [skipn Z.of_nat] in Hrun, Hconn1, Hinv. rewrite Z.add_0_l in Hrun.
  eexists. split.
  - apply try_except_Return. unfold scan_csv. rewrite Hfs.
    unfold bind at 1, ret at 1. rewrite (bind_Return _ _ _ _ _ Hrun).
    rewrite (bind_Return _ _ _ _ _
               (connection_commit_ok p1 _ Hconn1 eq_refl)).
    reflexivity.
  - cbn [upd chunk_size conn stats trace]. split; [exact Hcs1|].
    split; [|split].
    + unfold add_pending, with_conn. cbn. reflexivity.
    + intros s0 seen H. apply Hinv. exact H.
    + rewrite slices_app, Hsl. unfold p0. cbn [upd trace chunk_size].
      rewrite slices_app. cbn [slices filter is_slice].
      now rewrite !app_nil_r.
Qed.

(** ** The policies on whole files *)

(** C1: on the rows [("01/01/2012", 10.0, "u1"), ("01/02/2012", null, "u2")]
    with a window of 10, two records are persisted and the null price is
    stored as 0.0, but the accumulator is fed the column of the frame the
    caller holds, in which the cell is still null: it ends at COUNT 2 with
    SUM NaN and the bounds untouched, and the snapshot reads mean NaN,
    min 0.0, max 0.0 (not sum 10.0, min 0.0, max 10.0, mean 5.0). *)
Theorem null_price_reaches_stats_unfilled :
  let run := process_csv_file (one_file "prices.csv" rows_with_null)
               "prices.csv" false (connected 10) in
  fst run = Return 2 /\
  option_map committed (conn (snd run))
    = Some (rows_with_null_stored "prices.csv") /\
  stats (snd run)
    = {| COUNT := 2; SUM := nan; MIN_VALUE := inf; MAX_VALUE := neg_inf |} /\
  get_current_stats (stats (snd run))
    = Some {| snap_count := 2; snap_mean := nan;
              snap_min := zero; snap_max := zero |} /\
  eqb (SUM (stats (snd run))) (of_Z 10) = false.
Proof. cbv zeta. repeat split; vm_compute; reflexivity. Qed.

(** The same happens to every window that holds a null price: SUM is NaN
    after the update, and stays NaN. *)
Lemma add_nan_r (x : float) : add x nan = nan.
Proof. now destruct x as [[]|[]| |[] m e]. Qed.

Lemma np_sum_nan (values : list float) :
  In nan values -> np_sum values = nan.
Proof.
  unfold np_sum. generalize zero.
  induction values as [|x xs IH]; intros acc Hin; [destruct Hin|].
  destruct Hin as [Hx|Hx]; simpl.
  - subst x. rewrite add_nan_r. clear. induction xs as [|y ys IH]; auto.
  - now apply IH.
Qed.

Lemma null_price_makes_sum_nan (s : Stats) (prices : Series) :
  In None prices -> SUM (update_from_batch s prices) = nan.
Proof.
  intros Hin.
  assert (Hnan : In nan (to_numpy prices)).
  { unfold to_numpy. apply in_map_iff. now exists None. }
  unfold update_from_batch.
  destruct (to_numpy prices) as [|x xs]; [destruct Hnan|].
  cbn [SUM]. rewrite (np_sum_nan (x :: xs) Hnan). apply add_nan_r.
Qed.

(** What the claim describes is what the accumulator holds once it is fed
    the column with the nulls replaced. *)
Lemma null_price_filled_stats :
  let s := update_from_batch Stats_init
             (get_column_price (fill_null_price rows_with_null)) in
  s = {| COUNT := 2; SUM := of_Z 10; MIN_VALUE := zero; MAX_VALUE := of_Z 10 |} /\
  get_current_stats s
    = Some {| snap_count := 2; snap_mean := of_Z 5;
              snap_min := zero; snap_max := of_Z 10 |}.
Proof. cbv zeta. split; vm_compute; reflexivity. Qed.

(** C3, as stated, fails.  With a window of 2 and the prices 1e16, 1.0, 1.0,
    1.0 the batch policy adds 1e16 + 1.0 and 1.0 + 1.0 and ends at
    SUM = 1e16 + 2, the row-by-row policy adds the prices one at a time and
    ends at SUM = 1e16.  With a null price (the file of C1) the bounds differ
    as well: the batch policy leaves them at the sentinels, the row-by-row
    policy ends at 10.0 and 10.0. *)
Lemma row_by_row_differs_from_batch :
  let fs := one_file "prices.csv" rows_large_small in
  let batch := process_csv_file fs "prices.csv" false (connected 2) in
  let by_row := process_csv_file fs "prices.csv" true (connected 2) in
  let fs' := one_file "prices.csv" rows_with_null in
  let batch' := process_csv_file fs' "prices.csv" false (connected 10) in
  let by_row' := process_csv_file fs' "prices.csv" true (connected 10) in
  (fst batch = Return 4 /\ fst by_row = Return 4 /\
   SUM (stats (snd batch)) = of_Z (10 ^ 16 + 2) /\
   SUM (stats (snd by_row)) = of_Z (10 ^ 16) /\
   eqb (SUM (stats (snd by_row))) (SUM (stats (snd batch))) = false) /\
  (fst batch' = Return 2 /\ fst by_row' = Return 2 /\
   MIN_VALUE (stats (snd batch')) = inf /\
   MIN_VALUE (stats (snd by_row')) = of_Z 10 /\
   MAX_VALUE (stats (snd batch')) = neg_inf /\
   MAX_VALUE (stats (snd by_row')) = of_Z 10).
Proof. cbv zeta. repeat split; vm_compute; reflexivity. Qed.

(** C3 (amended): on a file that parses, with a positive window size and an
    open session that accepts the rows, both policies return the number of
    rows, leave the same rows in the store and end with the same COUNT; when
    no price is null or NaN they end with the same MIN_VALUE and the same
    MAX_VALUE.  (The sums are added in a different grouping and can differ by
    rounding.) *)
Theorem row_by_row_agrees_with_batch fs filepath lf p c :
  fs filepath = Some lf ->
  conn p = Some c -> closed c = false -> accepting c ->
  0 < chunk_size p -> Forall valid_row lf ->
  exists p_batch p_row,
    process_csv_file fs filepath false p = (Return (Z.of_nat (length lf)), p_batch) /\
    process_csv_file fs filepath true p = (Return (Z.of_nat (length lf)), p_row) /\
    conn p_row = conn p_batch /\
    COUNT (stats p_row) = COUNT (stats p_batch) /\
    COUNT (stats p_row) = COUNT (stats p) + Z.of_nat (length lf) /\
    (nan_free (to_numpy (get_column_price lf)) ->
     MIN_VALUE (stats p_row) = MIN_VALUE (stats p_batch) /\
     MAX_VALUE (stats p_row) = MAX_VALUE (stats p_batch)).
Proof.
  intros Hfs Hc Ho Ha Hcs Hv.
  destruct (process_csv_file_ok fs filepath false lf p c Hfs Hc Ho Ha Hcs Hv)
    as (pb & Hb & _ & Hcb & Hib & _).
  destruct (process_csv_file_ok fs filepath true lf p c Hfs Hc Ho Ha Hcs Hv)
    as (pr & Hr & _ & Hcr & Hir & _).
  exists pb, pr. split; [exact Hb|]. split; [exact Hr|].
  split; [now rewrite Hcb, Hcr|].
  specialize (Hib (stats p) [] (stats_inv_init _)).
  specialize (Hir (stats p) [] (stats_inv_init _)).
  cbn [app] in Hib, Hir.
  destruct (stats_inv_agree _ _ _ _ Hir Hib) as (H1 & H2 & H3).
  split; [exact H1|]. split; [|now auto].
  destruct Hir as (Hcount & _). rewrite Hcount.
  unfold to_numpy, get_column_price. now rewrite !length_map.
Qed.

Lemma row_by_row_agrees_with_batch_witness :
  exists p_batch p_row,
    process_csv_file (one_file "prices.csv" rows_plain) "prices.csv" false
      (connected 2) = (Return 3, p_batch) /\
    process_csv_file (one_file "prices.csv" rows_plain) "prices.csv" true
      (connected 2) = (Return 3, p_row) /\
    conn p_row = conn p_batch /\
    COUNT (stats p_row) = COUNT (stats p_batch) /\
    COUNT (stats p_row) = 0 + 3 /\
    (nan_free (to_numpy (get_column_price rows_plain)) ->
     MIN_VALUE (stats p_row) = MIN_VALUE (stats p_batch) /\
     MAX_VALUE (stats p_row) = MAX_VALUE (stats p_batch)).
Proof.
  refine (row_by_row_agrees_with_batch (one_file "prices.csv" rows_plain)
            "prices.csv" rows_plain (connected 2) willing_server
            eq_refl eq_refl eq_refl (fun _ => eq_refl) eq_refl _).
  repeat constructor; discriminate.
Defined.

(** C6: a file of 2500 rows that parses, read with a window of 1000 through
    an open session that accepts the rows, is read in the windows
    (offset 0, 1000 rows), (1000, 1000), (2000, 500) and (3000, none): the
    offset moves by 1000 each time, also after the window of 500, the empty
    window ends the loop, and the call returns 2500 with the 2500 rows
    committed.  This holds for both policies. *)
Theorem windows_of_2500_rows fs filepath update_per_row lf p c :
  fs filepath = Some lf -> length lf = 2500%nat -> chunk_size p = 1000 ->
  conn p = Some c -> closed c = false -> accepting c ->
  Forall valid_row lf ->
  exists p',
    process_csv_file fs filepath update_per_row p = (Return 2500, p') /\
    slices (trace p')
    = slices (trace p)
        ++ [EvSlice 0 1000 1000; EvSlice 1000 1000 1000;
            EvSlice 2000 1000 500; EvSlice 3000 1000 0] /\
    exists c',
      conn p' = Some c' /\ pending c' = [] /\
      length (committed c')
      = (length (committed c) + length (pending c) + 2500)%nat.
Proof.
  intros Hfs Hlen Hcs Hc Ho Ha Hv.
  destruct (process_csv_file_ok fs filepath update_per_row lf p c
              Hfs Hc Ho Ha ltac:(lia) Hv)
    as (p' & Hrun & _ & Hconn & _ & Hsl).
  exists p'. rewrite Hlen in Hrun, Hsl. rewrite Hcs in Hsl.
  split; [exact Hrun|]. split.
  - rewrite Hsl. f_equal.
  - eexists. split; [exact Hconn|]. split; [reflexivity|].
    cbn [with_conn committed]. rewrite !length_app, length_map. lia.
Qed.

Lemma windows_of_2500_rows_witness :
  exists p',
    process_csv_file (one_file "big.csv" rows_2500) "big.csv" false (connected 1000)
    = (Return 2500, p') /\
    slices (trace p')
    = slices [] ++ [EvSlice 0 1000 1000; EvSlice 1000 1000 1000;
                    EvSlice 2000 1000 500; EvSlice 3000 1000 0] /\
    exists c',
      conn p' = Some c' /\ pending c' = [] /\
      length (committed c') = (0 + 0 + 2500)%nat.
Proof.
  refine (windows_of_2500_rows (one_file "big.csv" rows_2500) "big.csv" false
            rows_2500 (connected 1000) willing_server
            eq_refl _ eq_refl eq_refl eq_refl (fun _ => eq_refl) _).
  - apply repeat_length.
  - apply Forall_forall. intros r Hr. apply repeat_spec in Hr. subst r.
    discriminate.
Defined.

(** ** Failures *)

(** [I] holds after [c], however [c] ends. *)
Definition preserves {A} (I : Pipeline -> Prop) (c : M A) : Prop :=
  forall p, I p -> I (snd (c p)).

Lemma preserves_ret {A} I (a : A) : preserves I (ret a).
Proof. intros p H. exact H. Qed.

Lemma preserves_raise {A} I e : preserves I (@raise A e).
Proof. intros p H. exact H. Qed.

Lemma preserves_bind {A B} I (c : M A) (k : A -> M B) :
  preserves I c -> (forall a, preserves I (k a)) -> preserves I (bind c k).
Proof.
  intros Hc Hk p H. unfold bind. specialize (Hc p H).
  destruct (c p) as [[a| e|] p1]; simpl in *; auto. now apply Hk.
Qed.

Lemma preserves_get I : preserves I get.
Proof. intros p H. exact H. Qed.

Lemma preserves_forM {A} I (body : A -> M unit) xs :
  (forall x, preserves I (body x)) -> preserves I (forM xs body).
Proof.
  intros Hb. induction xs as [|x xs IH]; simpl.
  - apply preserves_ret.
  - apply preserves_bind; auto.
Qed.

Lemma bind_Raise_inv {A B} (c : M A) (k : A -> M B) p e p' :
  bind c k p = (Raise e, p') ->
  c p = (Raise e, p') \/ exists a p1, c p = (Return a, p1) /\ k a p1 = (Raise e, p').
Proof.
  unfold bind. destruct (c p) as [[a| e1|] p1]; intros H.
  - right. eauto.
  - left. inversion H. reflexivity.
  - discriminate.
Qed.

(** The loop writes to the trace, to the accumulator and to the rows pending
    in an open session, and to nothing else: a property of the state that
    these writes keep holds when the loop is left, by [return] or [raise]. *)
Section LoopInvariant.

Variable I : Pipeline -> Prop.
Hypothesis I_upd : forall p s t, I p -> I (upd p s (conn p) t).
Hypothesis I_insert : forall p c r,
  I p -> conn p = Some c -> closed c = false ->
  I (upd p (stats p) (Some (add_pending c [r])) (trace p)).

Lemma preserves_log e : preserves I (log e).
Proof. intros p H. exact (I_upd p (stats p) (trace p ++ [e]) H). Qed.

Lemma preserves_stats_update prices :
  preserves I (stats_update_from_batch prices).
Proof.
  intros p H. exact (I_upd p (update_from_batch (stats p) prices) (trace p) H).
Qed.

Lemma preserves_insert_row r : preserves I (insert_row r).
Proof.
  intros p H. unfold insert_row, the_session, bind, get.
  destruct (conn p) as [c|] eqn:Hc; [|exact H].
  destruct (closed c) eqn:Ho; [exact H|]. cbn.
  destruct (accepts c r); [|exact H].
  exact (I_insert p c r H Hc Ho).
Qed.

Lemma preserves_execute_batch rs : preserves I (execute_batch rs).
Proof.
  unfold execute_batch. apply preserves_bind; [apply preserves_log|].
  intros _. apply preserves_forM. intros r. apply preserves_insert_row.
Qed.

Lemma preserves_cursor_execute r : preserves I (cursor_execute r).
Proof.
  unfold cursor_execute. apply preserves_bind; [apply preserves_log|].
  intros _. apply preserves_insert_row.
Qed.

Lemma preserves_rows_to_records rows filename :
  preserves I (rows_to_records rows filename).
Proof.
  induction rows as [|row rest IH]; simpl; [apply preserves_ret|].
  destruct (strptime (row_date row)); [|apply preserves_raise].
  destruct (row_price row); [|apply preserves_raise].
  apply preserves_bind; [exact IH|]. intros a. apply preserves_ret.
Qed.

Lemma preserves_process_batch records chunk :
  preserves I (_process_batch records chunk).
Proof.
  unfold _process_batch. apply preserves_bind.
  - apply preserves_execute_batch.
  - intros _. apply preserves_stats_update.
Qed.

Lemma preserves_row_by_row_from records prices : forall i,
  preserves I (row_by_row_from i records prices).
Proof.
  induction records as [|r rs IH]; intros i; simpl; [apply preserves_ret|].
  apply preserves_bind; [apply preserves_cursor_execute|]. intros _.
  destruct (nth_error prices i); [|apply preserves_raise].
  apply preserves_bind; [apply preserves_stats_update|]. intros _. apply IH.
Qed.

Lemma preserves_slice_collect lf offset length :
  preserves I (slice_collect lf offset length).
Proof.
  unfold slice_collect. destruct (length <? 0); [apply preserves_raise|].
  apply preserves_bind; [apply preserves_log|]. intros _. apply preserves_ret.
Qed.

Lemma preserves_process_windows fuel :
  forall lf filename update_per_row offset total,
    preserves I (process_windows fuel lf filename update_per_row offset total).
Proof.
  induction fuel as [|fuel IH]; intros lf filename update_per_row offset total.
  - intros p H. exact H.
  - cbn [process_windows]. apply preserves_bind; [apply preserves_get|].
    intros p0. apply preserves_bind; [apply preserves_slice_collect|].
    intros chunk. destruct (length chunk =? 0)%nat; [apply preserves_ret|].
    apply preserves_bind; [apply preserves_rows_to_records|]. intros records.
    apply preserves_bind; [|intros _; apply IH].
    destruct update_per_row.
    + apply preserves_row_by_row_from.
    + apply preserves_process_batch.
Qed.

(** Where the [try] block of [process_csv_file] raises, [I] still holds:
    the commit is its last statement and changes nothing unless it
    succeeds. *)
Lemma try_block_raises fs filepath update_per_row p e p1 :
  I p ->
  (lf <- scan_csv fs filepath ;;
   total_rows_processed <-
     process_windows (S (length lf)) lf (basename filepath) update_per_row 0 0 ;;
   connection_commit ;;
   ret total_rows_processed) p = (Raise e, p1) ->
  I p1.
Proof.
  intros H0 Hbody. apply bind_Raise_inv in Hbody.
  destruct Hbody as [Hscan|(lf & p2 & Hscan & Hbody)];
    unfold scan_csv in Hscan; destruct (fs filepath); inversion Hscan; subst.
  - exact H0.
  - clear Hscan. apply bind_Raise_inv in Hbody.
    pose proof (preserves_process_windows (S (length lf)) lf
                  (basename filepath) update_per_row 0 0 p2 H0) as H.
    destruct Hbody as [Hloop|(n & p3 & Hloop & Hbody)];
      rewrite Hloop in H; cbn [snd] in H; [exact H|].
    apply bind_Raise_inv in Hbody.
    destruct Hbody as [Hcommit|(u & p4 & _ & Hret)]; [|discriminate].
    unfold connection_commit in Hcommit. apply bind_Raise_inv in Hcommit.
    destruct Hcommit as [Hs|(c & p4 & _ & Hrest)]; [|discriminate].
    unfold the_session, bind, get in Hs.
    destruct (conn p3) as [c|]; [destruct (closed c)|]; inversion Hs; subst;
      exact H.
Qed.

End LoopInvariant.

(** The session is open and the table holds [cm]. *)
Definition session_holds (cm : list record) (p : Pipeline) : Prop :=
  exists c, conn p = Some c /\ committed c = cm /\ closed c = false.

(** The table, if there is a session, holds [cm]. *)
Definition table_is (cm : option (list record)) (p : Pipeline) : Prop :=
  option_map committed (conn p) = cm.

(** C7: when [process_csv_file] raises, the table holds what it held before
    the call (nothing of the file, whichever window failed); on an open
    session the transaction has been rolled back before the exception leaves
    the method: the last event is the rollback and no row is pending. *)
Theorem failure_rolls_back fs filepath update_per_row p e p' :
  process_csv_file fs filepath update_per_row p = (Raise e, p') ->
  option_map committed (conn p') = option_map committed (conn p) /\
  forall c, conn p = Some c -> closed c = false ->
    exists c' t,
      conn p' = Some c' /\
      committed c' = committed c /\ pending c' = [] /\ closed c' = false /\
      trace p' = t ++ [EvRollback].
Proof.
  intros Hrun. unfold process_csv_file in Hrun.
  rewrite (bind_Return _ _ _ _ _ (log_eq _ p)) in Hrun.
  set (p0 := upd p (stats p) (conn p)
               (trace p ++ [EvProcess filepath update_per_row])) in *.
  unfold try_except in Hrun.
  match type of Hrun with
  | context [match ?body p0 with _ => _ end] =>
      destruct (body p0) as [[n| e1|] p1] eqn:Hbody
  end; try discriminate.
  split.
  - (* nothing is committed *)
    assert (H1 : table_is (option_map committed (conn p)) p1).
    { refine (try_block_raises (table_is (option_map committed (conn p)))
                _ _ fs filepath update_per_row p0 e1 p1 eq_refl Hbody).
      - intros q s t H. exact H.
      - intros q c r H Hc _. unfold table_is in *. now rewrite Hc in H. }
    unfold table_is in H1. rewrite <- H1. clear H1 Hbody.
    unfold bind at 1, get in Hrun.
    destruct (conn p1) as [c1|] eqn:Hc1.
    + unfold connection_rollback, the_session in Hrun.
      unfold bind at 1 in Hrun. unfold bind at 1 in Hrun.
      unfold bind at 1, get in Hrun. rewrite Hc1 in Hrun.
      destruct (closed c1); cbn in Hrun; inversion Hrun; subst; cbn;
        now rewrite ?Hc1.
    + inversion Hrun; subst. now rewrite Hc1.
  - (* on an open session the rollback is carried out *)
    intros c Hc Ho.
    assert (H1 : session_holds (committed c) p1).
    { refine (try_block_raises (session_holds (committed c))
                _ _ fs filepath update_per_row p0 e1 p1 _ Hbody).
      - intros q s t H. exact H.
      - intros q c0 r (c1 & Hc1 & Hcm & Ho1) Hq _.
        rewrite Hc1 in Hq. inversion Hq; subst.
        exists (add_pending c0 [r]). auto.
      - exists c. auto. }
    destruct H1 as (c1 & Hc1 & Hcm1 & Ho1).
    unfold bind at 1, get in Hrun. rewrite Hc1 in Hrun.
    unfold connection_rollback in Hrun.
    unfold bind at 1 in Hrun.
    rewrite (bind_Return _ _ _ _ _ (the_session_ok p1 c1 Hc1 Ho1)) in Hrun.
    cbn in Hrun. inversion Hrun; subst.
    eexists. exists (trace p1). cbn. auto.
Qed.

(** A file whose third row carries a date that does not parse, read with a
    window of 1: two windows are written, the third raises [ValueError]. *)
Lemma failure_rolls_back_witness :
  let run := process_csv_file (one_file "bad.csv" rows_bad_third) "bad.csv"
               false (connected 1) in
  exists c' t,
    conn (snd run) = Some c' /\
    committed c' = [] /\ pending c' = [] /\ closed c' = false /\
    trace (snd run) = t ++ [EvRollback].
Proof.
  refine (proj2 (failure_rolls_back (one_file "bad.csv" rows_bad_third)
                   "bad.csv" false (connected 1) ValueError _ _)
            willing_server eq_refl eq_refl).
  vm_compute. reflexivity.
Defined.

(** ** Termination of the loop *)

Definition terminates {A} (c : M A) : Prop :=
  forall p, fst (c p) <> OutOfFuel.

Lemma terminates_ret {A} (a : A) : terminates (ret a).
Proof. intros p. discriminate. Qed.

Lemma terminates_raise {A} e : terminates (@raise A e).
Proof. intros p. discriminate. Qed.

Lemma terminates_bind {A B} (c : M A) (k : A -> M B) :
  terminates c -> (forall a, terminates (k a)) -> terminates (bind c k).
Proof.
  intros Hc Hk p. unfold bind. specialize (Hc p).
  destruct (c p) as [[a| e|] p1]; simpl in *; try discriminate; auto.
  apply Hk.
Qed.

Lemma terminates_modify f : terminates (modify f).
Proof. intros p. discriminate. Qed.

Lemma terminates_the_session : terminates the_session.
Proof.
  intros p. unfold the_session, bind, get.
  destruct (conn p) as [c|]; [destruct (closed c)|]; discriminate.
Qed.

Lemma terminates_insert_row r : terminates (insert_row r).
Proof.
  unfold insert_row. apply terminates_bind; [apply terminates_the_session|].
  intros c. destruct (accepts c r); [apply terminates_modify|apply terminates_raise].
Qed.

Lemma terminates_forM {A} (body : A -> M unit) xs :
  (forall x, terminates (body x)) -> terminates (forM xs body).
Proof.
  intros Hb. induction xs as [|x xs IH]; simpl.
  - apply terminates_ret.
  - apply terminates_bind; auto.
Qed.

Lemma terminates_rows_to_records rows filename :
  terminates (rows_to_records rows filename).
Proof.
  induction rows as [|row rest IH]; simpl; [apply terminates_ret|].
  destruct (strptime (row_date row)); [|apply terminates_raise].
  destruct (row_price row); [|apply terminates_raise].
  apply terminates_bind; [exact IH|]. intros a. apply terminates_ret.
Qed.

Lemma terminates_process_batch records chunk :
  terminates (_process_batch records chunk).
Proof.
  unfold _process_batch, execute_batch.
  apply terminates_bind.
  - apply terminates_bind; [apply terminates_modify|]. intros _.
    apply terminates_forM, terminates_insert_row.
  - intros _ p. discriminate.
Qed.

Lemma terminates_row_by_row_from records prices : forall i,
  terminates (row_by_row_from i records prices).
Proof.
  induction records as [|r rs IH]; intros i; simpl; [apply terminates_ret|].
  apply terminates_bind.
  - unfold cursor_execute. apply terminates_bind; [apply terminates_modify|].
    intros _. apply terminates_insert_row.
  - intros _. destruct (nth_error prices i); [|apply terminates_raise].
    apply terminates_bind; [intros p; discriminate|]. intros _. apply IH.
Qed.

(** With more fuel than rows left, the loop ends by a [return] or a
    [raise]. *)
Lemma process_windows_terminates fuel :
  forall lf filename update_per_row (k : nat) total p,
    (length lf - k < fuel)%nat ->
    fst (process_windows fuel lf filename update_per_row (Z.of_nat k) total p)
    <> OutOfFuel.
Proof.
  induction fuel as [|fuel IH]; intros lf filename update_per_row k total p Hfuel;
    [lia|].
  cbn [process_windows]. unfold bind at 1, get.
  destruct (chunk_size p <? 0) eqn:Hneg.
  { unfold slice_collect. rewrite Hneg. discriminate. }
  apply Z.ltb_ge in Hneg.
  rewrite (bind_Return _ _ _ _ _ (slice_collect_ok lf _ _ p Hneg)).
  pose proof (window_length lf (Z.of_nat k) (chunk_size p)) as Hlen.
  rewrite Nat2Z.id in Hlen.
  destruct (length (window lf (Z.of_nat k) (chunk_size p)) =? 0)%nat eqn:E;
    [discriminate|].
  apply Nat.eqb_neq in E.
  apply terminates_bind; [apply terminates_rows_to_records|]. intros records.
  apply terminates_bind.
  - destruct update_per_row.
    + apply terminates_row_by_row_from.
    + apply terminates_process_batch.
  - intros _ p2.
    replace (Z.of_nat k + chunk_size p)
      with (Z.of_nat (k + Z.to_nat (chunk_size p))) by lia.
    apply IH. lia.
Qed.

(** [process_csv_file] always ends: the fuel it gives the loop is enough. *)
Lemma process_csv_file_total fs filepath update_per_row p :
  fst (process_csv_file fs filepath update_per_row p) <> OutOfFuel.
Proof.
  unfold process_csv_file.
  rewrite (bind_Return _ _ _ _ _ (log_eq _ p)).
  set (p0 := upd p (stats p) (conn p) (trace p ++ [EvProcess filepath update_per_row])).
  unfold try_except.
  match goal with
  | |- context [match ?body p0 with _ => _ end] =>
      destruct (body p0) as [[n| e1|] p1] eqn:Hbody
  end.
  - discriminate.
  - unfold bind at 1, get. destruct (conn p1) as [c1|]; [|discriminate].
    apply terminates_bind; [|intros _; apply terminates_raise].
    unfold connection_rollback.
    apply terminates_bind; [apply terminates_the_session|]. intros c.
    apply terminates_bind; [apply terminates_modify|]. intros _.
    apply terminates_modify.
  - exfalso. revert Hbody. unfold scan_csv.
    destruct (fs filepath) as [lf|]; [|discriminate].
    unfold bind at 1, ret at 1.
    pose proof (process_windows_terminates (S (length lf)) lf
                  (basename filepath) update_per_row 0%nat 0 p0 ltac:(lia)) as H.
    cbn [Z.of_nat] in H. unfold bind at 1.
    destruct (process_windows (S (length lf)) lf (basename filepath)
                update_per_row 0 0 p0) as [[n| e1|] p2]; try discriminate.
    + unfold bind at 1, connection_commit.
      unfold bind at 1. pose proof (terminates_the_session p2) as Hs.
      destruct (the_session p2) as [[c2| e2|] p3]; try discriminate.
      now elim Hs.
    + now elim H.
Qed.

(** ** The script *)

(** C5: with the five dated files and [validation.csv] in place, the script
    processes [validation.csv] row by row after each dated file, five times
    in all, and commits its rows five times (30 rows for six files of 3
    rows); it does not process the dated files first and the validation file
    once at the end. *)
Theorem main_processes_validation_per_dated_file :
  let run := main full_directory (Some willing_server) in
  fst run = Return tt /\
  process_calls (trace (snd run))
  = [ ("./data/2012-1.csv", false); ("./data/validation.csv", true);
      ("./data/2012-2.csv", false); ("./data/validation.csv", true);
      ("./data/2012-3.csv", false); ("./data/validation.csv", true);
      ("./data/2012-4.csv", false); ("./data/validation.csv", true);
      ("./data/2012-5.csv", false); ("./data/validation.csv", true) ]%string /\
  option_map (fun c => length (committed c)) (conn (snd run)) = Some 30%nat /\
  COUNT (stats (snd run)) = 30.
Proof. cbv zeta. repeat split; vm_compute; reflexivity. Qed.

(** ** Verification against the store *)

(** C10: when the aggregate query answers with a count of 0 and NULL for the
    average, the minimum and the maximum, [verify_results_from_db] returns
    count 0 and 0.0 for the mean, the minimum and the maximum, which is the
    snapshot of an accumulator that has seen nothing; each NULL aggregate
    becomes 0.0 whatever the other columns hold. *)
Theorem verify_results_from_db_empty_table p c :
  conn p = Some c -> closed c = false ->
  sql_aggregates c (committed c ++ pending c) = (Some 0, None, None, None) ->
  verify_results_from_db p = (Return snapshot_zero, p) /\
  get_current_stats Stats_init = Some snapshot_zero /\
  (forall r0 r1 r2 r3,
     (r1 = None -> snap_mean (db_stats_of (r0, r1, r2, r3)) = zero) /\
     (r2 = None -> snap_min (db_stats_of (r0, r1, r2, r3)) = zero) /\
     (r3 = None -> snap_max (db_stats_of (r0, r1, r2, r3)) = zero)).
Proof.
  intros Hc Ho Hrow. split; [|split].
  - unfold verify_results_from_db, fetch_aggregates.
    unfold bind at 1.
    rewrite (bind_Return _ _ _ _ _ (the_session_ok p c Hc Ho)).
    unfold ret. rewrite Hrow. reflexivity.
  - reflexivity.
  - intros r0 r1 r2 r3. repeat split; intros ->; reflexivity.
Qed.

Lemma verify_results_from_db_empty_table_witness :
  verify_results_from_db (connected 1000) = (Return snapshot_zero, connected 1000).
Proof.
  exact (proj1 (verify_results_from_db_empty_table (connected 1000)
                  willing_server eq_refl eq_refl eq_refl)).
Defined.

(** * Further properties *)

(** ** The accumulator over a whole run *)

Lemma stats_inv_feed s0 batches : forall seen s,
  stats_inv s0 seen s ->
  stats_inv s0 (seen ++ values_of batches) (feed s batches).
Proof.
  induction batches as [|b bs IH]; intros seen s H.
  - unfold values_of. simpl. now rewrite app_nil_r.
  - unfold values_of, feed in *. simpl. rewrite app_assoc.
    apply IH. now apply stats_inv_update.
Qed.

(** The first of the best operands of a fold is an operand, and none beats
    it. *)
Section FoldPick.

Variable lt : float -> float -> bool.
Hypothesis lt_asym : forall x y, lt x y = true -> lt y x = false.
Hypothesis nlt_trans : forall x y z,
  is_nan y = false -> lt y x = false -> lt z y = false -> lt z x = false.

Lemma pick_irrefl x : lt x x = false.
Proof.
  destruct (lt x x) eqn:E; [|reflexivity]. now rewrite (lt_asym _ _ E) in E.
Qed.

Lemma fold_pick_in l : forall m,
  In (fold_left (py_pick lt) l m) (m :: l).
Proof.
  induction l as [|y ys IH]; intros m; [now left|].
  simpl fold_left. destruct (IH (py_pick lt m y)) as [H|H].
  - rewrite <- H. unfold py_pick. destruct (lt y m); [right|]; now left.
  - right. now right.
Qed.

Lemma fold_pick_best l : forall m,
  is_nan m = false -> nan_free l ->
  forall x, In x (m :: l) -> lt x (fold_left (py_pick lt) l m) = false.
Proof.
  induction l as [|y ys IH]; intros m Nm Hnf x Hx.
  - destruct Hx as [<-|[]]. apply pick_irrefl.
  - inversion Hnf as [|? ? Ny Hnf']; subst. simpl fold_left.
    assert (Np : is_nan (py_pick lt m y) = false)
      by (unfold py_pick; now destruct (lt y m)).
    assert (Hm : lt m (py_pick lt m y) = false).
    { unfold py_pick. destruct (lt y m) eqn:E; [now apply lt_asym|].
      apply pick_irrefl. }
    assert (Hy : lt y (py_pick lt m y) = false).
    { unfold py_pick. destruct (lt y m) eqn:E; [apply pick_irrefl|exact E]. }
    specialize (IH (py_pick lt m y) Np Hnf').
    destruct Hx as [<-|[<-|Hx]].
    + apply nlt_trans with (py_pick lt m y); auto. apply IH. now left.
    + apply nlt_trans with (py_pick lt m y); auto. apply IH. now left.
    + apply IH. now right.
Qed.

End FoldPick.

Lemma below_inf (x : float) : is_nan x = false -> ltb x inf = false -> x = inf.
Proof.
  destruct x as [[]|[]| |[] m e]; intros Hn Hl; try reflexivity;
    try discriminate Hn; cbv in Hl; discriminate Hl.
Qed.

Lemma above_neg_inf (x : float) :
  is_nan x = false -> ltb neg_inf x = false -> x = neg_inf.
Proof.
  destruct x as [[]|[]| |[] m e]; intros Hn Hl; try reflexivity;
    try discriminate Hn; cbv in Hl; discriminate Hl.
Qed.

(** X1: fed from its initial state with batches that hold no null and no
    NaN, and at least one value, the accumulator ends with the number of
    values in COUNT, with a value that no value is smaller than in MIN_VALUE
    and with a value that no value is greater than in MAX_VALUE; so
    MIN_VALUE <= MAX_VALUE. *)
Theorem feed_count_min_max (batches : list Series) :
  nan_free (values_of batches) -> values_of batches <> [] ->
  let s := feed Stats_init batches in
  COUNT s = Z.of_nat (length (values_of batches)) /\
  In (MIN_VALUE s) (values_of batches) /\
  (forall x, In x (values_of batches) -> ltb x (MIN_VALUE s) = false) /\
  In (MAX_VALUE s) (values_of batches) /\
  (forall x, In x (values_of batches) -> ltb (MAX_VALUE s) x = false) /\
  ltb (MAX_VALUE s) (MIN_VALUE s) = false.
Proof.
  intros Hnf Hne s.
  pose proof (stats_inv_feed Stats_init batches [] Stats_init
                (stats_inv_init _)) as (Hc & Hmin & Hmax).
  cbn [app] in Hc, Hmin, Hmax. fold s in Hc, Hmin, Hmax.
  specialize (Hmin Hnf). specialize (Hmax Hnf).
  cbn [Stats_init MIN_VALUE MAX_VALUE COUNT] in Hmin, Hmax, Hc.
  set (vs := values_of batches) in *.
  assert (Bmin : forall x, In x (inf :: vs) -> ltb x (MIN_VALUE s) = false).
  { rewrite Hmin. apply (fold_pick_best ltb F64Order.ltb_asym); auto.
    intros a b c Nb H1 H2. exact (F64Order.fle_trans a b c Nb H1 H2). }
  assert (Bmax : forall x, In x (neg_inf :: vs) -> ltb (MAX_VALUE s) x = false).
  { rewrite Hmax. intros x Hx.
    apply (fold_pick_best gtb) with (x := x); auto.
    - unfold gtb. intros a b. apply F64Order.ltb_asym.
    - unfold gtb. intros a b c Nb H1 H2. exact (F64Order.fle_trans c b a Nb H2 H1). }
  assert (Imin : In (MIN_VALUE s) vs).
  { pose proof (fold_pick_in ltb vs inf) as H. fold py_min in H.
    change (py_pick ltb) with py_min in H. rewrite <- Hmin in H.
    destruct H as [H|H]; [|exact H].
    destruct vs as [|v vs']; [congruence|].
    assert (Nv : is_nan v = false) by now inversion Hnf.
    assert (Hv : ltb v inf = false)
      by (rewrite H; apply Bmin; right; now left).
    rewrite <- H, <- (below_inf v Nv Hv). now left. }
  assert (Imax : In (MAX_VALUE s) vs).
  { pose proof (fold_pick_in gtb vs neg_inf) as H.
    change (py_pick gtb) with py_max in H. rewrite <- Hmax in H.
    destruct H as [H|H]; [|exact H].
    destruct vs as [|v vs']; [congruence|].
    assert (Nv : is_nan v = false) by now inversion Hnf.
    assert (Hv : ltb neg_inf v = false)
      by (rewrite H; apply Bmax; right; now left).
    rewrite <- H, <- (above_neg_inf v Nv Hv). now left. }
  split; [lia|]. split; [exact Imin|].
  split; [intros x Hx; apply Bmin; now right|].
  split; [exact Imax|].
  split; [intros x Hx; apply Bmax; now right|].
  apply Bmax. now right.
Qed.

Lemma feed_count_min_max_witness :
  let s := feed Stats_init [pl_Series [of_Z 3; of_Z 1]; pl_Series [of_Z 2]] in
  COUNT s = 3 /\
  In (MIN_VALUE s) [of_Z 3; of_Z 1; of_Z 2] /\
  (forall x, In x [of_Z 3; of_Z 1; of_Z 2] -> ltb x (MIN_VALUE s) = false) /\
  In (MAX_VALUE s) [of_Z 3; of_Z 1; of_Z 2] /\
  (forall x, In x [of_Z 3; of_Z 1; of_Z 2] -> ltb (MAX_VALUE s) x = false) /\
  ltb (MAX_VALUE s) (MIN_VALUE s) = false.
Proof.
  refine (feed_count_min_max
            [pl_Series [of_Z 3; of_Z 1]; pl_Series [of_Z 2]] _ _).
  - repeat constructor.
  - discriminate.
Defined.

Lemma py_min_not_nan m x : is_nan m = false -> is_nan (py_min m x) = false.
Proof.
  intros Nm. unfold py_min. destruct (ltb x m) eqn:E; [|exact Nm].
  destruct x; try reflexivity. discriminate E.
Qed.

Lemma py_max_not_nan m x : is_nan m = false -> is_nan (py_max m x) = false.
Proof.
  intros Nm. unfold py_max, gtb. destruct (ltb m x) eqn:E; [|exact Nm].
  destruct x; try reflexivity. now rewrite F64Order.ltb_nan_r in E.
Qed.

Lemma feed_bounds_not_nan batches : forall s,
  is_nan (MIN_VALUE s) = false -> is_nan (MAX_VALUE s) = false ->
  is_nan (MIN_VALUE (feed s batches)) = false /\
  is_nan (MAX_VALUE (feed s batches)) = false.
Proof.
  induction batches as [|b bs IH]; intros s Hmin Hmax; [now split|].
  unfold feed in *. simpl. apply IH.
  - unfold update_from_batch. destruct (to_numpy b); [exact Hmin|].
    now apply py_min_not_nan.
  - unfold update_from_batch. destruct (to_numpy b); [exact Hmax|].
    now apply py_max_not_nan.
Qed.

Lemma values_of_length batches :
  length (values_of batches) = length (concat batches).
Proof.
  unfold values_of. induction batches as [|b bs IH]; [reflexivity|].
  simpl. rewrite !length_app, IH. unfold to_numpy. now rewrite length_map.
Qed.

(** X2: whatever the batches hold, nulls and NaN included, COUNT is the
    number of cells fed (a null cell counts) and neither MIN_VALUE nor
    MAX_VALUE is ever NaN: a null or NaN value never becomes a bound. *)
Theorem feed_counts_cells_bounds_not_nan (batches : list Series) :
  let s := feed Stats_init batches in
  COUNT s = Z.of_nat (length (concat batches)) /\
  0 <= COUNT s /\
  is_nan (MIN_VALUE s) = false /\ is_nan (MAX_VALUE s) = false.
Proof.
  cbv zeta.
  pose proof (stats_inv_feed Stats_init batches [] Stats_init
                (stats_inv_init _)) as (Hc & _).
  cbn [app Stats_init COUNT] in Hc.
  rewrite values_of_length in Hc. split; [exact Hc|]. split; [lia|].
  now apply feed_bounds_not_nan.
Qed.

Lemma add_nan_l (x : float) : add nan x = nan.
Proof. reflexivity. Qed.

Lemma feed_sum_nan batches : forall s, SUM s = nan -> SUM (feed s batches) = nan.
Proof.
  induction batches as [|b bs IH]; intros s Hs; [exact Hs|].
  unfold feed in *. simpl. apply IH.
  unfold update_from_batch. destruct (to_numpy b); [exact Hs|].
  cbn [SUM]. now rewrite Hs.
Qed.

Lemma feed_count_le batches : forall s, COUNT s <= COUNT (feed s batches).
Proof.
  induction batches as [|b bs IH]; intros s; [apply Z.le_refl|].
  unfold feed in *. simpl. specialize (IH (update_from_batch s b)).
  pose proof (update_from_batch_step s b) as (H & _). lia.
Qed.

(** X3: a batch that holds a null or a NaN turns SUM into NaN, and SUM is
    NaN after every later batch; from then on the mean of every snapshot is
    NaN. *)
Theorem nan_poisons_sum (s : Stats) (prices : Series) (later : list Series) :
  0 <= COUNT s -> In nan (to_numpy prices) ->
  let t := feed (update_from_batch s prices) later in
  SUM t = nan /\
  forall snap, get_current_stats t = Some snap -> snap_mean snap = nan.
Proof.
  intros Hc Hin t.
  assert (Hs : SUM (update_from_batch s prices) = nan).
  { unfold update_from_batch.
    destruct (to_numpy prices) as [|x xs]; [destruct Hin|].
    cbn [SUM]. rewrite (np_sum_nan (x :: xs) Hin). apply add_nan_r. }
  assert (Ht : SUM t = nan) by now apply feed_sum_nan.
  split; [exact Ht|]. intros snap Hsnap.
  assert (Hpos : 0 < COUNT t).
  { pose proof (feed_count_le later (update_from_batch s prices)) as H.
    fold t in H. unfold update_from_batch in H.
    destruct (to_numpy prices) as [|x xs]; [destruct Hin|].
    cbn [COUNT length] in H. lia. }
  unfold get_current_stats, _mean in Hsnap.
  apply Z.ltb_lt in Hpos. rewrite Hpos, Ht in Hsnap.
  destruct (of_int (COUNT t)); inversion Hsnap. reflexivity.
Qed.

Lemma nan_poisons_sum_witness :
  let t := feed (update_from_batch Stats_init [Some (of_Z 10); None])
             [pl_Series [of_Z 4]] in
  SUM t = nan /\
  forall snap, get_current_stats t = Some snap -> snap_mean snap = nan.
Proof.
  refine (nan_poisons_sum Stats_init [Some (of_Z 10); None]
            [pl_Series [of_Z 4]] _ _).
  - discriminate.
  - right. now left.
Defined.

(** ** What a call of [process_csv_file] can change *)

Definition is_process (e : event) : bool :=
  match e with EvProcess _ _ => true | _ => false end.

Lemma preserves_try_except {A} I (body : M A) handler :
  preserves I body -> (forall e, preserves I (handler e)) ->
  preserves I (try_except body handler).
Proof.
  intros Hb Hh p H. unfold try_except. specialize (Hb p H).
  destruct (body p) as [[a| e|] p1]; cbn [snd] in *; auto. now apply Hh.
Qed.

(** The body of [process_csv_file] writes events other than the entry event
    to the trace, feeds batches to the accumulator, adds rows to the pending
    ones of an open session, and commits or rolls back that session: a
    property of the state that these five writes keep holds when the call is
    over, however it ends. *)
Section Frame.

Variable I : Pipeline -> Prop.
Hypothesis I_log : forall p e,
  is_process e = false -> I p -> I (upd p (stats p) (conn p) (trace p ++ [e])).
Hypothesis I_stats : forall p prices,
  I p -> I (upd p (update_from_batch (stats p) prices) (conn p) (trace p)).
Hypothesis I_insert : forall p c r,
  I p -> conn p = Some c -> closed c = false ->
  I (upd p (stats p) (Some (add_pending c [r])) (trace p)).
Hypothesis I_commit : forall p c,
  I p -> conn p = Some c -> closed c = false ->
  I (upd p (stats p)
       (Some (with_conn c (committed c ++ pending c) [] false)) (trace p)).
Hypothesis I_rollback : forall p c,
  I p -> conn p = Some c -> closed c = false ->
  I (upd p (stats p) (Some (with_conn c (committed c) [] false)) (trace p)).

Lemma frame_log e : is_process e = false -> preserves I (log e).
Proof. intros He p H. exact (I_log p e He H). Qed.

Lemma frame_stats_update prices : preserves I (stats_update_from_batch prices).
Proof. intros p H. exact (I_stats p prices H). Qed.

Lemma frame_insert_row r : preserves I (insert_row r).
Proof.
  intros p H. unfold insert_row, the_session, bind, get.
  destruct (conn p) as [c|] eqn:Hc; [|exact H].
  destruct (closed c) eqn:Ho; [exact H|]. cbn.
  destruct (accepts c r); [|exact H].
  exact (I_insert p c r H Hc Ho).
Qed.

Lemma frame_execute_batch rs : preserves I (execute_batch rs).
Proof.
  unfold execute_batch. apply preserves_bind; [now apply frame_log|].
  intros _. apply preserves_forM. intros r. apply frame_insert_row.
Qed.

Lemma frame_cursor_execute r : preserves I (cursor_execute r).
Proof.
  unfold cursor_execute. apply preserves_bind; [now apply frame_log|].
  intros _. apply frame_insert_row.
Qed.

Lemma frame_rows_to_records rows filename :
  preserves I (rows_to_records rows filename).
Proof.
  induction rows as [|row rest IH]; simpl; [apply preserves_ret|].
  destruct (strptime (row_date row)); [|apply preserves_raise].
  destruct (row_price row); [|apply preserves_raise].
  apply preserves_bind; [exact IH|]. intros a. apply preserves_ret.
Qed.

Lemma frame_process_batch records chunk :
  preserves I (_process_batch records chunk).
Proof.
  unfold _process_batch. apply preserves_bind.
  - apply frame_execute_batch.
  - intros _. apply frame_stats_update.
Qed.

Lemma frame_row_by_row_from records prices : forall i,
  preserves I (row_by_row_from i records prices).
Proof.
  induction records as [|r rs IH]; intros i; simpl; [apply preserves_ret|].
  apply preserves_bind; [apply frame_cursor_execute|]. intros _.
  destruct (nth_error prices i); [|apply preserves_raise].
  apply preserves_bind; [apply frame_stats_update|]. intros _. apply IH.
Qed.

Lemma frame_slice_collect lf offset length :
  preserves I (slice_collect lf offset length).
Proof.
  unfold slice_collect. destruct (length <? 0); [apply preserves_raise|].
  apply preserves_bind; [now apply frame_log|]. intros _. apply preserves_ret.
Qed.

Lemma frame_process_windows fuel :
  forall lf filename update_per_row offset total,
    preserves I (process_windows fuel lf filename update_per_row offset total).
Proof.
  induction fuel as [|fuel IH]; intros lf filename update_per_row offset total.
  - intros p H. exact H.
  - cbn [process_windows]. apply preserves_bind; [apply preserves_get|].
    intros p0. apply preserves_bind; [apply frame_slice_collect|].
    intros chunk. destruct (length chunk =? 0)%nat; [apply preserves_ret|].
    apply preserves_bind; [apply frame_rows_to_records|]. intros records.
    apply preserves_bind; [|intros _; apply IH].
    destruct update_per_row.
    + apply frame_row_by_row_from.
    + apply frame_process_batch.
Qed.

Lemma frame_session_write (f : connection -> connection) e :
  is_process e = false ->
  (forall p c, I p -> conn p = Some c -> closed c = false ->
     I (upd p (stats p) (Some (f c)) (trace p))) ->
  preserves I (c <- the_session ;; log e ;; set_conn (Some (f c))).
Proof.
  intros He Hf p H. unfold the_session, bind, get.
  destruct (conn p) as [c|] eqn:Hc; [|exact H].
  destruct (closed c) eqn:Ho; [exact H|]. cbn.
  apply (Hf (upd p (stats p) (conn p) (trace p ++ [e])) c); auto.
Qed.

Lemma frame_commit : preserves I connection_commit.
Proof. apply (frame_session_write _ EvCommit eq_refl). exact I_commit. Qed.

Lemma frame_rollback : preserves I connection_rollback.
Proof. apply (frame_session_write _ EvRollback eq_refl). exact I_rollback. Qed.

(** The call without its entry event. *)
Lemma frame_process_csv_file fs filepath update_per_row p :
  I (upd p (stats p) (conn p) (trace p ++ [EvProcess filepath update_per_row])) ->
  I (snd (process_csv_file fs filepath update_per_row p)).
Proof.
  intros H. unfold process_csv_file.
  rewrite (bind_Return _ _ _ _ _ (log_eq _ p)).
  revert H. generalize (upd p (stats p) (conn p)
                          (trace p ++ [EvProcess filepath update_per_row])).
  apply preserves_try_except.
  - apply preserves_bind.
    + unfold scan_csv. destruct (fs filepath);
        [apply preserves_ret|apply preserves_raise].
    + intros lf. apply preserves_bind; [apply frame_process_windows|].
      intros n. apply preserves_bind; [apply frame_commit|].
      intros _. apply preserves_ret.
  - intros e. apply preserves_bind; [apply preserves_get|]. intros q.
    destruct (conn q); [|apply preserves_raise].
    apply preserves_bind; [apply frame_rollback|].
    intros _. apply preserves_raise.
Qed.

End Frame.

(** X4: however a call of [process_csv_file] ends, by [return] or by
    [raise], it leaves [chunk_size] as it was and an accumulator that is the
    previous one fed with some batches: the accumulator is never reset and a
    failure does not take back the windows already counted; COUNT does not
    decrease. *)
Theorem process_csv_file_only_feeds fs filepath update_per_row p :
  let p' := snd (process_csv_file fs filepath update_per_row p) in
  chunk_size p' = chunk_size p /\
  (exists batches, stats p' = feed (stats p) batches) /\
  COUNT (stats p) <= COUNT (stats p').
Proof.
  cbv zeta.
  assert (H : chunk_size (snd (process_csv_file fs filepath update_per_row p))
              = chunk_size p /\
              exists batches,
                stats (snd (process_csv_file fs filepath update_per_row p))
                = feed (stats p) batches).
  { apply (frame_process_csv_file
             (fun q => chunk_size q = chunk_size p /\
                       exists batches, stats q = feed (stats p) batches)).
    - intros q e _ H. exact H.
    - intros q prices (Hcs & batches & Hb). split; [exact Hcs|].
      exists (batches ++ [prices]). cbn [upd stats]. unfold feed in *.
      now rewrite fold_left_app, <- Hb.
    - intros q c r H _ _. exact H.
    - intros q c H _ _. exact H.
    - intros q c H _ _. exact H.
    - split; [reflexivity|]. now exists []. }
  destruct H as (Hcs & batches & Hb).
  split; [exact Hcs|]. split; [now exists batches|].
  rewrite Hb. apply feed_count_le.
Qed.

(** ** The two policies on one window, when the server says no *)

Lemma rows_to_records_state rows filename p :
  snd (rows_to_records rows filename p) = p.
Proof.
  induction rows as [|row rest IH]; [reflexivity|]. simpl.
  destruct (strptime (row_date row)); [|reflexivity].
  destruct (row_price row); [|reflexivity].
  unfold bind. destruct (rows_to_records rest filename p) as [[a| e|] p1];
    simpl in *; now subst.
Qed.

Lemma _prepare_records_bad chunk filename p :
  ~ Forall valid_row chunk ->
  fst (_prepare_records chunk filename p) = Raise ValueError.
Proof.
  unfold _prepare_records. induction chunk as [|row rest IH]; intros Hnv.
  - elim Hnv. constructor.
  - simpl. cbn [row_date row_price].
    destruct (strptime (row_date row)) as [ts|] eqn:E; [|reflexivity].
    assert (Hrest : ~ Forall valid_row rest).
    { intros Hr. apply Hnv. constructor; [|exact Hr].
      unfold valid_row. congruence. }
    specialize (IH Hrest). unfold bind.
    destruct (rows_to_records (fill_null_price rest) filename p)
      as [[a| e|] p1]; simpl in *; congruence.
Qed.

(** X5: [_prepare_records] changes nothing in the pipeline.  When every date
    of the window parses it returns one record per row, in order, with the
    price of the row, 0.0 where the cell is null, and the file name; when a
    date does not parse it raises [ValueError] (and nothing else). *)
Theorem _prepare_records_spec chunk filename p :
  snd (_prepare_records chunk filename p) = p /\
  (Forall valid_row chunk ->
   fst (_prepare_records chunk filename p)
   = Return (map (to_record filename) chunk)) /\
  (~ Forall valid_row chunk ->
   fst (_prepare_records chunk filename p) = Raise ValueError) /\
  (forall r, valid_row r ->
     strptime (row_date r) = Some (timestamp (to_record filename r)) /\
     price (to_record filename r)
     = match row_price r with Some x => x | None => zero end /\
     user_id (to_record filename r) = row_user r /\
     file_source (to_record filename r) = filename).
Proof.
  split; [apply rows_to_records_state|]. split; [|split].
  - intros Hv. now rewrite _prepare_records_ok.
  - apply _prepare_records_bad.
  - intros r Hr. unfold valid_row in Hr. unfold to_record. cbn.
    destruct (strptime (row_date r)); [|congruence]. repeat split.
Qed.

Lemma insert_row_stats r p : stats (snd (insert_row r p)) = stats p.
Proof.
  unfold insert_row, the_session, bind, get.
  destruct (conn p) as [c|]; [|reflexivity].
  destruct (closed c); [reflexivity|]. cbn.
  destruct (accepts c r); reflexivity.
Qed.

Lemma insert_rows_stats rs : forall p,
  stats (snd (forM rs insert_row p)) = stats p.
Proof.
  induction rs as [|r rs IH]; intros p; [reflexivity|].
  simpl. unfold bind. pose proof (insert_row_stats r p) as H.
  destruct (insert_row r p) as [[u| e|] p1]; cbn [snd] in *; try exact H.
  now rewrite IH.
Qed.

Lemma insert_row_raises r p e p' :
  insert_row r p = (Raise e, p') ->
  p' = p /\ (e = AttributeError \/ e = InterfaceError \/ e = DatabaseError).
Proof.
  unfold insert_row, the_session, bind, get.
  destruct (conn p) as [c|].
  - destruct (closed c); cbn.
    + intros H; inversion H; auto.
    + destruct (accepts c r); cbn; intros H; inversion H; auto.
  - intros H; inversion H; auto.
Qed.

Lemma insert_rows_raises rs : forall p e p',
  forM rs insert_row p = (Raise e, p') ->
  e = AttributeError \/ e = InterfaceError \/ e = DatabaseError.
Proof.
  induction rs as [|r rs IH]; intros p e p' H; [discriminate|].
  simpl in H. apply bind_Raise_inv in H.
  destruct H as [H|(u & p1 & _ & H)].
  - now apply insert_row_raises in H.
  - now apply IH in H.
Qed.

(** X6: the batch policy takes a window into the accumulator all at once or
    not at all.  When [_process_batch] returns, the accumulator has been fed
    the price column of the window once; when it raises (no cursor, closed
    session, or an [INSERT] the server refuses) the accumulator is what it
    was, whatever was written before the refusal. *)
Theorem _process_batch_feeds_once_or_never records chunk p :
  match _process_batch records chunk p with
  | (Return _, p') =>
      stats p' = update_from_batch (stats p) (get_column_price chunk)
  | (Raise e, p') =>
      stats p' = stats p /\
      (e = AttributeError \/ e = InterfaceError \/ e = DatabaseError)
  | (OutOfFuel, _) => False
  end.
Proof.
  unfold _process_batch. unfold bind at 1. unfold execute_batch.
  rewrite (bind_Return _ _ _ _ _ (log_eq _ p)).
  set (p0 := upd p (stats p) (conn p)
               (trace p ++ [EvExecuteBatch (length records)])).
  pose proof (insert_rows_stats records p0) as Hs.
  pose proof (insert_rows_raises records p0) as Hr.
  pose proof (terminates_forM insert_row records terminates_insert_row p0) as Ht.
  destruct (forM records insert_row p0) as [[u| e|] p1]; cbn [snd fst] in *.
  - cbn. now rewrite Hs.
  - split; [exact Hs|]. now apply (Hr e p1).
  - now elim Ht.
Qed.

Lemma skipn_cons_nth {A} (l : list A) : forall i x,
  nth_error l i = Some x -> skipn i l = x :: skipn (S i) l.
Proof.
  induction l as [|y ys IH]; intros [|i] x E; simpl in *; try discriminate.
  - now inversion E.
  - now apply IH.
Qed.

Lemma row_by_row_from_stops ok : forall i prices p c bad rest,
  conn p = Some c -> closed c = false ->
  Forall (fun r => accepts c r = true) ok -> accepts c bad = false ->
  (i + length ok <= length prices)%nat ->
  row_by_row_from i (ok ++ bad :: rest) prices p
  = (Raise DatabaseError,
     upd p (single_updates (stats p) (firstn (length ok) (skipn i prices)))
       (Some (add_pending c ok))
       (trace p ++ repeat EvExecute (S (length ok)))).
Proof.
  induction ok as [|r rs IH]; intros i prices p c bad rest Hc Ho Hok Hbad Hlen.
  - cbn [app row_by_row_from length firstn single_updates fold_left repeat].
    unfold cursor_execute. unfold bind at 1.
    rewrite (bind_Return _ _ _ _ _ (log_eq _ p)).
    unfold insert_row.
    rewrite (bind_Return _ _ _ _ _
               (the_session_ok (upd p (stats p) (conn p) (trace p ++ [EvExecute]))
                  c Hc Ho)).
    rewrite Hbad. unfold raise. rewrite (add_pending_nil c Ho).
    unfold upd. cbn. now rewrite Hc.
  - inversion Hok as [|? ? Hr Hrs]; subst.
    cbn [app row_by_row_from]. simpl in Hlen.
    rewrite (bind_Return _ _ _ _ _ (cursor_execute_ok r p c Hc Ho Hr)).
    destruct (nth_error prices i) as [x|] eqn:E.
    2:{ apply nth_error_None in E. lia. }
    rewrite (bind_Return _ _ _ _ _ (stats_update_from_batch_eq _ _)).
    rewrite (IH (S i) prices _ (add_pending c [r]) bad rest);
      try reflexivity; try assumption; try lia.
    rewrite add_pending_add_pending, (skipn_cons_nth prices i x E).
    cbn [length firstn single_updates fold_left upd stats conn trace
         chunk_size repeat app].
    rewrite <- app_assoc. reflexivity.
Qed.

(** X7: the row-by-row policy takes a window into the accumulator row by
    row.  When the server refuses a record after having taken the records
    [ok] before it, [_process_row_by_row] raises [DatabaseError] with the
    accumulator fed, one at a time, the prices of exactly those first rows
    (the refused row and the rows after it are not counted), and with those
    records pending. *)
Theorem _process_row_by_row_stops_at_refusal ok bad rest chunk p c :
  conn p = Some c -> closed c = false ->
  Forall (fun r => accepts c r = true) ok -> accepts c bad = false ->
  (length ok <= length chunk)%nat ->
  exists p',
    _process_row_by_row (ok ++ bad :: rest) chunk p = (Raise DatabaseError, p') /\
    stats p' = single_updates (stats p)
                 (firstn (length ok) (to_numpy (get_column_price chunk))) /\
    COUNT (stats p') = COUNT (stats p) + Z.of_nat (length ok) /\
    conn p' = Some (add_pending c ok).
Proof.
  intros Hc Ho Hok Hbad Hlen. unfold _process_row_by_row.
  assert (Hl : length (to_numpy (get_column_price chunk)) = length chunk).
  { unfold to_numpy, get_column_price. now rewrite !length_map. }
  rewrite (row_by_row_from_stops ok 0 _ p c bad rest Hc Ho Hok Hbad)
    by (rewrite Hl; lia).
  eexists. split; [reflexivity|]. cbn [upd stats conn skipn].
  split; [reflexivity|]. split; [|reflexivity].
  pose proof (single_updates_inv (stats p)
                (firstn (length ok) (to_numpy (get_column_price chunk)))
                [] (stats p) (stats_inv_init _)) as (H & _).
  cbn [app] in H. rewrite H, length_firstn, Hl. f_equal. lia.
Qed.

Lemma _process_row_by_row_stops_at_refusal_witness :
  exists p',
    _process_row_by_row
      (map (to_record "bad.csv") (firstn 2 rows_bad_third)
         ++ to_record "bad.csv"
              {| row_date := "01/03/2012"; row_price := Some (of_Z 30);
                 row_user := "u3" |} :: [])
      rows_bad_third
      {| chunk_size := 10; stats := Stats_init;
         conn := Some picky_server; trace := [] |}
    = (Raise DatabaseError, p') /\
    stats p' = single_updates Stats_init
                 (firstn 2 (to_numpy (get_column_price rows_bad_third))) /\
    COUNT (stats p') = 0 + 2 /\
    conn p' = Some (add_pending picky_server
                      (map (to_record "bad.csv") (firstn 2 rows_bad_third))).
Proof.
  refine (_process_row_by_row_stops_at_refusal
            (map (to_record "bad.csv") (firstn 2 rows_bad_third)) _ []
            rows_bad_third
            {| chunk_size := 10; stats := Stats_init;
               conn := Some picky_server; trace := [] |}
            picky_server eq_refl eq_refl _ _ _).
  - repeat constructor.
  - reflexivity.
  - simpl. lia.
Defined.

(** ** Whole files *)

(** X8: on a file that exists and parses, with a positive window size and an
    open session that accepts the rows, [process_csv_file] returns the number
    of rows of the file, whatever the policy; the table then holds what it
    held, the rows that were pending before the call and one record per row
    of the file, in the order of the file, each stamped with the base name of
    the path; nothing is pending and COUNT has grown by the number of
    rows. *)
Theorem process_csv_file_stores_file fs filepath update_per_row lf p c :
  fs filepath = Some lf ->
  conn p = Some c -> closed c = false -> accepting c ->
  0 < chunk_size p -> Forall valid_row lf ->
  exists p' c',
    process_csv_file fs filepath update_per_row p
    = (Return (Z.of_nat (length lf)), p') /\
    conn p' = Some c' /\
    committed c'
    = committed c ++ pending c ++ map (to_record (basename filepath)) lf /\
    pending c' = [] /\ closed c' = false /\
    COUNT (stats p') = COUNT (stats p) + Z.of_nat (length lf).
Proof.
  intros Hfs Hc Ho Ha Hcs Hv.
  destruct (process_csv_file_ok fs filepath update_per_row lf p c
              Hfs Hc Ho Ha Hcs Hv)
    as (p' & Hrun & _ & Hconn & Hinv & _).
  exists p'. eexists. split; [exact Hrun|]. split; [exact Hconn|].
  cbn [with_conn committed pending closed]. repeat split.
  destruct (Hinv (stats p) [] (stats_inv_init _)) as (H & _).
  rewrite H. cbn [app]. unfold to_numpy, get_column_price.
  now rewrite !length_map.
Qed.

Lemma process_csv_file_stores_file_witness :
  exists p' c',
    process_csv_file (one_file "data/in.csv" rows_plain) "data/in.csv" true
      (connected 2)
    = (Return 3, p') /\
    conn p' = Some c' /\
    committed c' = [] ++ [] ++ map (to_record "in.csv") rows_plain /\
    pending c' = [] /\ closed c' = false /\
    COUNT (stats p') = 0 + 3.
Proof.
  refine (process_csv_file_stores_file (one_file "data/in.csv" rows_plain)
            "data/in.csv" true rows_plain (connected 2) willing_server
            eq_refl eq_refl eq_refl (fun _ => eq_refl) eq_refl _).
  repeat constructor; discriminate.
Defined.

Lemma slices_from_closed size rows :
  0 < size ->
  let n := Z.to_nat size in
  let c := ((rows + n - 1) / n)%nat in
  forall fuel j, (rows - j * n < fuel)%nat -> (j <= c)%nat ->
    slices_from fuel size rows (j * n)
    = map (fun j => EvSlice (Z.of_nat j * size) size (Nat.min n (rows - j * n)))
          (seq j (S c - j)).
Proof.
  intros Hsize n c.
  assert (Hn : (0 < n)%nat) by (unfold n; lia).
  assert (Hdm : (rows + n - 1 = n * c + (rows + n - 1) mod n)%nat)
    by apply Nat.div_mod_eq.
  assert (Hr : ((rows + n - 1) mod n < n)%nat) by (apply Nat.mod_upper_bound; lia).
  assert (Hc1 : (rows <= c * n)%nat) by nia.
  assert (Hc2 : (c * n < rows + n)%nat) by nia.
  induction fuel as [|fuel IH]; intros j Hfuel Hj; [lia|].
  cbn [slices_from]. fold n.
  assert (Hoff : Z.of_nat (j * n) = Z.of_nat j * size) by (unfold n; nia).
  rewrite Hoff.
  destruct (Nat.min n (rows - j * n) =? 0)%nat eqn:E.
  - apply Nat.eqb_eq in E.
    assert (j = c) by nia. subst j.
    replace (S c - c)%nat with 1%nat by lia. reflexivity.
  - apply Nat.eqb_neq in E.
    assert (Hlt : (j < c)%nat) by nia.
    replace (S c - j)%nat with (S (S c - S j)) by lia.
    cbn [seq map]. f_equal.
    replace (j * n + n)%nat with (S j * n)%nat by lia.
    apply IH; nia.
Qed.

(** X9: under the same conditions the file is read in windows at the offsets
    0, size, 2 size, ...: one read of [min size (rows left)] rows for every
    started window, the stride being the window size also after a short
    window, and one more read that finds no row and ends the loop;
    [ceil (rows / size) + 1] reads in all. *)
Theorem process_csv_file_reads fs filepath update_per_row lf p c :
  fs filepath = Some lf ->
  conn p = Some c -> closed c = false -> accepting c ->
  0 < chunk_size p -> Forall valid_row lf ->
  let p' := snd (process_csv_file fs filepath update_per_row p) in
  slices (trace p')
  = slices (trace p) ++ expected_reads (chunk_size p) (length lf) /\
  length (expected_reads (chunk_size p) (length lf))
  = S ((length lf + Z.to_nat (chunk_size p) - 1) / Z.to_nat (chunk_size p)).
Proof.
  intros Hfs Hc Ho Ha Hcs Hv p'.
  destruct (process_csv_file_ok fs filepath update_per_row lf p c
              Hfs Hc Ho Ha Hcs Hv)
    as (p1 & Hrun & _ & _ & _ & Hsl).
  subst p'. rewrite Hrun. cbn [snd]. split.
  - rewrite Hsl. f_equal. unfold expected_reads.
    pose proof (slices_from_closed (chunk_size p) (length lf) Hcs
                  (S (length lf)) 0%nat) as H.
    cbv zeta in H. cbn [Nat.mul] in H. rewrite Nat.sub_0_r in H.
    apply H; lia.
  - unfold expected_reads. now rewrite length_map, length_seq.
Qed.

Lemma process_csv_file_reads_witness :
  let p' := snd (process_csv_file (one_file "in.csv" rows_plain) "in.csv"
                   false (connected 2)) in
  slices (trace p') = slices [] ++ expected_reads 2 3 /\
  length (expected_reads 2 3) = 3%nat.
Proof.
  refine (process_csv_file_reads (one_file "in.csv" rows_plain) "in.csv" false
            rows_plain (connected 2) willing_server
            eq_refl eq_refl eq_refl (fun _ => eq_refl) eq_refl _).
  repeat constructor; discriminate.
Defined.

(** X10: degenerate window sizes.  With [chunk_size = 0] the first window is
    empty: the call returns 0 and commits the transaction without having
    looked at a row of the file, however many it has.  With a negative
    [chunk_size] the slice is refused: the call rolls back and raises
    [ValueError].  In both cases the accumulator is untouched. *)
Theorem process_csv_file_degenerate_window fs filepath update_per_row lf p c :
  fs filepath = Some lf -> conn p = Some c -> closed c = false ->
  (chunk_size p = 0 ->
   process_csv_file fs filepath update_per_row p
   = (Return 0,
      upd p (stats p)
        (Some (with_conn c (committed c ++ pending c) [] false))
        (trace p ++ [EvProcess filepath update_per_row; EvSlice 0 0 0;
                     EvCommit]))) /\
  (chunk_size p < 0 ->
   process_csv_file fs filepath update_per_row p
   = (Raise ValueError,
      upd p (stats p) (Some (with_conn c (committed c) [] false))
        (trace p ++ [EvProcess filepath update_per_row; EvRollback]))).
Proof.
  intros Hfs Hc Ho. split; intros Hcs.
  - unfold process_csv_file.
    rewrite (bind_Return _ _ _ _ _ (log_eq _ p)).
    set (p0 := upd p (stats p) (conn p)
                 (trace p ++ [EvProcess filepath update_per_row])).
    assert (Hcs0 : chunk_size p0 = 0) by exact Hcs.
    erewrite try_except_Return.
    2:{ unfold scan_csv. rewrite Hfs. unfold bind at 1, ret at 1.
        rewrite (bind_Return _ _ _ _ _
                   (process_windows_stop (length lf) lf (basename filepath)
                      update_per_row 0 0 p0 ltac:(lia)
                      ltac:(now rewrite Hcs0))).
        rewrite (bind_Return _ _ _ _ _
                   (connection_commit_ok
                      (upd p0 (stats p0) (conn p0)
                         (trace p0 ++ [EvSlice 0 (chunk_size p0) 0%nat]))
                      c Hc Ho)).
        reflexivity. }
    unfold p0. cbn [upd chunk_size stats conn trace]. rewrite Hcs.
    rewrite <- !app_assoc. reflexivity.
  - unfold process_csv_file.
    rewrite (bind_Return _ _ _ _ _ (log_eq _ p)).
    set (p0 := upd p (stats p) (conn p)
                 (trace p ++ [EvProcess filepath update_per_row])).
    unfold try_except, scan_csv. rewrite Hfs.
    unfold bind at 1, ret at 1. unfold bind at 1.
    cbn [process_windows]. unfold bind at 1, get. unfold bind at 1.
    unfold slice_collect. cbn [upd chunk_size p0].
    apply Z.ltb_lt in Hcs. rewrite Hcs. unfold raise at 1.
    unfold bind at 1, get. cbn [conn upd p0]. rewrite Hc.
    unfold connection_rollback.
    unfold bind at 1.
    rewrite (bind_Return _ _ _ _ _ (the_session_ok p0 c Hc Ho)).
    cbn. rewrite <- !app_assoc. reflexivity.
Qed.

Lemma process_csv_file_degenerate_window_witness :
  process_csv_file (one_file "in.csv" rows_plain) "in.csv" false (connected 0)
  = (Return 0,
     upd (connected 0) Stats_init
       (Some (with_conn willing_server [] [] false))
       [EvProcess "in.csv" false; EvSlice 0 0 0; EvCommit]).
Proof.
  exact (proj1 (process_csv_file_degenerate_window
                  (one_file "in.csv" rows_plain) "in.csv" false rows_plain
                  (connected 0) willing_server eq_refl eq_refl eq_refl)
           eq_refl).
Defined.

(** X11: a path that names no file.  [process_csv_file] raises
    [FileNotFoundError] without reading a window or touching the
    accumulator; on an open session it first rolls back, which discards the
    rows that were pending before the call. *)
Theorem process_csv_file_missing_file fs filepath update_per_row p :
  fs filepath = None ->
  (conn p = None ->
   process_csv_file fs filepath update_per_row p
   = (Raise FileNotFoundError,
      upd p (stats p) None (trace p ++ [EvProcess filepath update_per_row]))) /\
  (forall c, conn p = Some c -> closed c = false ->
   process_csv_file fs filepath update_per_row p
   = (Raise FileNotFoundError,
      upd p (stats p) (Some (with_conn c (committed c) [] false))
        (trace p ++ [EvProcess filepath update_per_row; EvRollback]))).
Proof.
  intros Hfs. split.
  - intros Hc. unfold process_csv_file.
    rewrite (bind_Return _ _ _ _ _ (log_eq _ p)).
    unfold try_except, scan_csv. rewrite Hfs.
    unfold bind at 1, raise at 1. unfold bind at 1, get.
    cbn [conn upd]. rewrite Hc. reflexivity.
  - intros c Hc Ho. unfold process_csv_file.
    rewrite (bind_Return _ _ _ _ _ (log_eq _ p)).
    set (p0 := upd p (stats p) (conn p)
                 (trace p ++ [EvProcess filepath update_per_row])).
    unfold try_except, scan_csv. rewrite Hfs.
    unfold bind at 1, raise at 1. unfold bind at 1, get.
    cbn [conn upd p0]. rewrite Hc.
    unfold connection_rollback. unfold bind at 1.
    rewrite (bind_Return _ _ _ _ _ (the_session_ok p0 c Hc Ho)).
    cbn. rewrite <- !app_assoc. reflexivity.
Qed.

Lemma process_csv_file_missing_file_witness :
  process_csv_file (one_file "in.csv" rows_plain) "other.csv" true
    (Pipeline_init 1000)
  = (Raise FileNotFoundError,
     upd (Pipeline_init 1000) Stats_init None [EvProcess "other.csv" true]).
Proof.
  exact (proj1 (process_csv_file_missing_file
                  (one_file "in.csv" rows_plain) "other.csv" true
                  (Pipeline_init 1000) eq_refl) eq_refl).
Defined.

(** ** Calls without a usable session *)

(** The exception every use of the cursor or of the connection raises:
    [AttributeError] before [connect()], [InterfaceError] once the session is
    closed. *)
Definition session_error (p : Pipeline) : option exn :=
  match conn p with
  | None => Some AttributeError
  | Some c => if closed c then Some InterfaceError else None
  end.

Lemma the_session_error p e0 :
  session_error p = Some e0 -> the_session p = (Raise e0, p).
Proof.
  unfold session_error, the_session, bind, get.
  destruct (conn p) as [c|]; [destruct (closed c)|]; intros H; inversion H;
    reflexivity.
Qed.

Lemma insert_row_error r p e0 :
  session_error p = Some e0 -> insert_row r p = (Raise e0, p).
Proof.
  intros H. unfold insert_row, bind. now rewrite (the_session_error p e0 H).
Qed.

Lemma valid_rows_dec chunk : Forall valid_row chunk \/ ~ Forall valid_row chunk.
Proof.
  induction chunk as [|r rs [IH|IH]].
  - left. constructor.
  - destruct (strptime (row_date r)) eqn:E.
    + left. constructor; [unfold valid_row; congruence|exact IH].
    + right. intros H. inversion H; subst. unfold valid_row in *. congruence.
  - right. intros H. inversion H; subst. now apply IH.
Qed.

(** One iteration of the loop without a usable session: it ends the loop, and
    the accumulator and the session are what they were. *)
Lemma process_windows_no_session fuel lf filename update_per_row offset total p e0 :
  session_error p = Some e0 ->
  exists o p',
    process_windows (S fuel) lf filename update_per_row offset total p = (o, p') /\
    stats p' = stats p /\ conn p' = conn p /\
    (o = Return total \/ o = Raise ValueError \/ o = Raise e0).
Proof.
  intros He. cbn [process_windows]. unfold bind at 1, get.
  unfold slice_collect. destruct (chunk_size p <? 0).
  { do 2 eexists. split; [reflexivity|]. auto. }
  rewrite (bind_Return _ _ _ _ _ (bind_Return _ _ _ _ _ (log_eq _ p))).
  unfold ret at 1.
  set (chunk := firstn _ _).
  set (p0 := upd p (stats p) (conn p) _).
  assert (He0 : session_error p0 = Some e0) by exact He.
  destruct (length chunk =? 0)%nat eqn:E.
  { do 2 eexists. split; [reflexivity|]. auto. }
  pose proof (rows_to_records_state (fill_null_price chunk) filename p0) as Hst.
  fold (_prepare_records chunk filename p0) in Hst.
  destruct (valid_rows_dec chunk) as [Hv|Hv].
  - pose proof (f_equal fst (_prepare_records_ok chunk filename p0 Hv)) as Hok.
    cbn [fst] in Hok. unfold bind at 1.
    destruct (_prepare_records chunk filename p0) as [o1 p1].
    cbn [fst snd] in *. subst o1 p1.
    destruct chunk as [|r chunk']; [discriminate|]. cbn [map].
    destruct update_per_row.
    + unfold _process_row_by_row. cbn [row_by_row_from].
      unfold cursor_execute. unfold bind at 1. unfold bind at 1.
      rewrite (bind_Return _ _ _ _ _ (log_eq _ p0)).
      rewrite insert_row_error with (e0 := e0) by exact He0.
      do 2 eexists. split; [reflexivity|]. auto.
    + unfold _process_batch, execute_batch. unfold bind at 1. unfold bind at 1.
      rewrite (bind_Return _ _ _ _ _ (log_eq _ p0)).
      cbn [forM]. unfold bind at 1.
      rewrite insert_row_error with (e0 := e0) by exact He0.
      do 2 eexists. split; [reflexivity|]. auto.
  - pose proof (_prepare_records_bad chunk filename p0 Hv) as Hbad.
    unfold bind at 1.
    destruct (_prepare_records chunk filename p0) as [o1 p1].
    cbn [fst snd] in *. subst o1 p1.
    do 2 eexists. split; [reflexivity|]. auto.
Qed.

Lemma try_block_no_session fs filepath update_per_row p e0 :
  session_error p = Some e0 ->
  exists e p',
    (lf <- scan_csv fs filepath ;;
     total_rows_processed <-
       process_windows (S (length lf)) lf (basename filepath) update_per_row 0 0 ;;
     connection_commit ;;
     ret total_rows_processed) p = (Raise e, p') /\
    stats p' = stats p /\ conn p' = conn p /\
    (e = FileNotFoundError \/ e = ValueError \/ e = e0).
Proof.
  intros He. unfold scan_csv. destruct (fs filepath) as [lf|].
  2:{ do 2 eexists. split; [reflexivity|]. auto. }
  unfold bind at 1, ret at 1.
  destruct (process_windows_no_session (length lf) lf (basename filepath)
              update_per_row 0 0 p e0 He)
    as (o & p1 & Hrun & Hst & Hcn & Ho).
  unfold bind at 1. rewrite Hrun.
  destruct Ho as [->|[->| ->]].
  - assert (He1 : session_error p1 = Some e0)
      by (unfold session_error in *; now rewrite Hcn).
    unfold connection_commit. unfold bind at 1. unfold bind at 1.
    rewrite (the_session_error p1 e0 He1).
    do 2 eexists. split; [reflexivity|]. auto.
  - do 2 eexists. split; [reflexivity|]. auto.
  - do 2 eexists. split; [reflexivity|]. auto.
Qed.

Lemma process_csv_file_no_conn fs filepath update_per_row p :
  conn p = None ->
  exists e p',
    process_csv_file fs filepath update_per_row p = (Raise e, p') /\
    (e = FileNotFoundError \/ e = ValueError \/ e = AttributeError) /\
    stats p' = stats p /\ conn p' = None.
Proof.
  intros Hc. unfold process_csv_file.
  rewrite (bind_Return _ _ _ _ _ (log_eq _ p)).
  set (p0 := upd p (stats p) (conn p)
               (trace p ++ [EvProcess filepath update_per_row])).
  assert (He : session_error p0 = Some AttributeError)
    by (unfold session_error, p0; cbn; now rewrite Hc).
  destruct (try_block_no_session fs filepath update_per_row p0 _ He)
    as (e & p1 & Hbody & Hst & Hcn & Hcases).
  unfold try_except. rewrite Hbody.
  unfold bind at 1, get. rewrite Hcn. cbn [conn upd p0]. rewrite Hc.
  do 2 eexists. split; [reflexivity|]. split; [exact Hcases|].
  split; [exact Hst|]. rewrite Hcn. exact Hc.
Qed.

Lemma process_csv_file_closed fs filepath update_per_row p c :
  conn p = Some c -> closed c = true ->
  exists p',
    process_csv_file fs filepath update_per_row p = (Raise InterfaceError, p') /\
    stats p' = stats p /\ conn p' = Some c.
Proof.
  intros Hc Hclosed. unfold process_csv_file.
  rewrite (bind_Return _ _ _ _ _ (log_eq _ p)).
  set (p0 := upd p (stats p) (conn p)
               (trace p ++ [EvProcess filepath update_per_row])).
  assert (He : session_error p0 = Some InterfaceError)
    by (unfold session_error, p0; cbn; now rewrite Hc, Hclosed).
  destruct (try_block_no_session fs filepath update_per_row p0 _ He)
    as (e & p1 & Hbody & Hst & Hcn & Hcases).
  unfold try_except. rewrite Hbody.
  unfold bind at 1, get. rewrite Hcn. cbn [conn upd p0]. rewrite Hc.
  assert (He1 : session_error p1 = Some InterfaceError)
    by (unfold session_error in *; now rewrite Hcn).
  unfold connection_rollback. unfold bind at 1. unfold bind at 1.
  rewrite (the_session_error p1 _ He1).
  eexists. split; [reflexivity|]. split; [exact Hst|].
  rewrite Hcn. exact Hc.
Qed.

(** X12: without a usable session [process_csv_file] never returns and
    changes neither the accumulator nor the session.  Before [connect()] it
    raises [FileNotFoundError], [ValueError] or [AttributeError]; on a closed
    session it raises [InterfaceError] in every case, also when the file is
    missing or a date does not parse, because the rollback of the handler
    raises in its turn. *)
Theorem process_csv_file_needs_session fs filepath update_per_row p :
  (conn p = None ->
   exists e p',
     process_csv_file fs filepath update_per_row p = (Raise e, p') /\
     (e = FileNotFoundError \/ e = ValueError \/ e = AttributeError) /\
     stats p' = stats p /\ conn p' = None) /\
  (forall c, conn p = Some c -> closed c = true ->
   exists p',
     process_csv_file fs filepath update_per_row p = (Raise InterfaceError, p') /\
     stats p' = stats p /\ conn p' = Some c).
Proof.
  split.
  - apply process_csv_file_no_conn.
  - apply process_csv_file_closed.
Qed.

(** X13: [disconnect()] on a pipeline with a session succeeds, closes the
    session and drops its pending rows, and leaves the committed rows and the
    accumulator as they were; a second [disconnect()] changes nothing.  After
    it, [process_csv_file] and [verify_results_from_db] raise
    [InterfaceError] and change neither the table nor the accumulator. *)
Theorem disconnect_then_use p c :
  conn p = Some c ->
  let p_d := snd (disconnect p) in
  fst (disconnect p) = Return tt /\
  conn p_d = Some (with_conn c (committed c) [] true) /\
  stats p_d = stats p /\
  disconnect p_d = (Return tt, p_d) /\
  verify_results_from_db p_d = (Raise InterfaceError, p_d) /\
  forall fs filepath update_per_row,
    exists p',
      process_csv_file fs filepath update_per_row p_d
      = (Raise InterfaceError, p') /\
      stats p' = stats p /\
      option_map committed (conn p') = Some (committed c).
Proof.
  intros Hc.
  set (q := {| chunk_size := chunk_size p; stats := stats p;
               conn := Some (with_conn c (committed c) [] true);
               trace := trace p |}).
  assert (Hd : disconnect p = (Return tt, q)).
  { unfold disconnect, bind, get. now rewrite Hc. }
  cbv zeta. rewrite Hd. cbn [fst snd].
  split; [reflexivity|]. split; [reflexivity|]. split; [reflexivity|].
  split; [reflexivity|]. split; [reflexivity|].
  intros fs filepath update_per_row.
  destruct (process_csv_file_closed fs filepath update_per_row q
              (with_conn c (committed c) [] true) eq_refl eq_refl)
    as (p' & Hrun & Hst & Hcn).
  exists p'. split; [exact Hrun|]. split; [exact Hst|]. now rewrite Hcn.
Qed.

Lemma disconnect_then_use_witness :
  let p_d := snd (disconnect (connected 1000)) in
  fst (disconnect (connected 1000)) = Return tt /\
  conn p_d = Some (with_conn willing_server [] [] true) /\
  stats p_d = Stats_init /\
  disconnect p_d = (Return tt, p_d) /\
  verify_results_from_db p_d = (Raise InterfaceError, p_d) /\
  forall fs filepath update_per_row,
    exists p',
      process_csv_file fs filepath update_per_row p_d
      = (Raise InterfaceError, p') /\
      stats p' = Stats_init /\
      option_map committed (conn p') = Some [].
Proof.
  exact (disconnect_then_use (connected 1000) willing_server eq_refl).
Defined.

(** ** The script, for every data directory *)

Lemma terminates_try_except {A} (body : M A) handler :
  terminates body -> (forall e, terminates (handler e)) ->
  terminates (try_except body handler).
Proof.
  intros Hb Hh p. unfold try_except. specialize (Hb p).
  destruct (body p) as [[a| e|] p1]; cbn [fst] in *; try discriminate; auto.
  apply Hh.
Qed.

Lemma terminates_try_finally {A} (body : M A) final :
  terminates body -> terminates final -> terminates (try_finally body final).
Proof.
  intros Hb Hf p. unfold try_finally. specialize (Hb p).
  destruct (body p) as [o p1]. specialize (Hf p1).
  destruct (final p1) as [[u| e|] p2]; cbn [fst] in *; auto; discriminate.
Qed.

Lemma terminates_verify : terminates verify_results_from_db.
Proof.
  unfold verify_results_from_db, fetch_aggregates.
  apply terminates_bind.
  - apply terminates_bind; [apply terminates_the_session|].
    intros c. apply terminates_ret.
  - intros r. apply terminates_ret.
Qed.

Lemma terminates_print_stats : terminates print_stats.
Proof.
  intros p. unfold print_stats, bind, get.
  destruct (_mean (stats p)); discriminate.
Qed.

Lemma terminates_main_iteration fs i : terminates (main_iteration fs i).
Proof.
  unfold main_iteration. destruct (negb (path_exists fs (dated_file i)));
    [apply terminates_ret|].
  apply terminates_bind; [intros p; apply process_csv_file_total|]. intros _.
  apply terminates_bind; [apply terminates_print_stats|]. intros _.
  apply terminates_bind; [apply terminates_verify|]. intros _.
  apply terminates_bind.
  - destruct (path_exists fs validation_path); [|apply terminates_ret].
    apply terminates_bind; [intros p; apply process_csv_file_total|].
    intros _. apply terminates_print_stats.
  - intros _. apply terminates_bind; [apply terminates_verify|].
    intros _. apply terminates_ret.
Qed.

Lemma verify_state p : snd (verify_results_from_db p) = p.
Proof.
  unfold verify_results_from_db, fetch_aggregates, the_session, bind, get.
  destruct (conn p) as [c|]; [destruct (closed c)|]; reflexivity.
Qed.

Lemma print_stats_state p : snd (print_stats p) = p.
Proof.
  unfold print_stats, bind, get. destruct (_mean (stats p)); reflexivity.
Qed.

(** A property of the state that the writes of [process_csv_file] keep, and
    that does not depend on the trace, is kept by an iteration of the
    script. *)
Lemma preserves_main_iteration (I : Pipeline -> Prop) fs i :
  (forall filepath update_per_row,
     preserves I (process_csv_file fs filepath update_per_row)) ->
  preserves I (main_iteration fs i).
Proof.
  intros Hp. unfold main_iteration.
  destruct (negb (path_exists fs (dated_file i))); [apply preserves_ret|].
  apply preserves_bind; [apply Hp|]. intros _.
  apply preserves_bind; [intros p H; now rewrite print_stats_state|]. intros _.
  apply preserves_bind; [intros p H; now rewrite verify_state|]. intros _.
  apply preserves_bind.
  - destruct (path_exists fs validation_path); [|apply preserves_ret].
    apply preserves_bind; [apply Hp|]. intros _.
    intros p H. now rewrite print_stats_state.
  - intros _. apply preserves_bind; [intros p H; now rewrite verify_state|].
    intros _. apply preserves_ret.
Qed.

(** The window size is 1000 and the table has only grown since the session
    [c] was opened. *)
Definition grown_from (c : connection) (q : Pipeline) : Prop :=
  chunk_size q = 1000 /\
  exists c' more, conn q = Some c' /\ committed c' = committed c ++ more.

Lemma grown_from_process_csv_file c fs filepath update_per_row :
  preserves (grown_from c) (process_csv_file fs filepath update_per_row).
Proof.
  intros p H. apply frame_process_csv_file; try exact H.
  - intros q e _ Hq. exact Hq.
  - intros q prices Hq. exact Hq.
  - intros q c0 r (Hcs & c' & more & Hc' & Hcm) Hq _. split; [exact Hcs|].
    rewrite Hc' in Hq. inversion Hq; subst. exists (add_pending c0 [r]), more.
    now split.
  - intros q c0 (Hcs & c' & more & Hc' & Hcm) Hq _. split; [exact Hcs|].
    rewrite Hc' in Hq. inversion Hq; subst.
    eexists. exists (more ++ pending c0). split; [reflexivity|].
    cbn [with_conn committed]. now rewrite Hcm, app_assoc.
  - intros q c0 (Hcs & c' & more & Hc' & Hcm) Hq _. split; [exact Hcs|].
    rewrite Hc' in Hq. inversion Hq; subst.
    eexists. exists more. now split.
Qed.

(** X14: the script always ends, and it always leaves the session closed.
    When the server cannot be reached it raises [OperationalError] with
    nothing processed.  Otherwise, whatever the files hold and however the
    processing goes, the [finally] clause closes the session with no row
    pending, and the table holds the rows it held when the session was
    opened followed by the committed ones: no row is removed. *)
Theorem main_ends_with_session_closed fs server :
  let run := main fs server in
  fst run <> OutOfFuel /\
  match server with
  | None => run = (Raise OperationalError, Pipeline_init 1000)
  | Some c =>
      chunk_size (snd run) = 1000 /\
      exists c' more,
        conn (snd run) = Some c' /\ closed c' = true /\ pending c' = [] /\
        committed c' = committed c ++ more
  end.
Proof.
  cbv zeta. split.
  - unfold main, main_block.
    apply terminates_try_finally.
    + apply terminates_try_except; [|intros e; apply terminates_raise].
      apply terminates_bind.
      * intros p. unfold connect. now destruct server.
      * intros _. apply terminates_forM. intros i.
        apply terminates_main_iteration.
    + intros p. unfold disconnect, bind, get. now destruct (conn p).
  - destruct server as [c|]; [|reflexivity].
    unfold main, main_block, try_finally.
    assert (H : grown_from c
                  (snd (try_except
                          (connect (Some c) ;;
                           forM [1; 2; 3; 4; 5]%nat (main_iteration fs))
                          (fun e => raise e) (Pipeline_init 1000)))).
    { unfold try_except, connect.
      rewrite (bind_Return _ _ (Pipeline_init 1000) tt
                 {| chunk_size := 1000; stats := Stats_init;
                    conn := Some c; trace := [] |} eq_refl).
      assert (H0 : grown_from c {| chunk_size := 1000; stats := Stats_init;
                                   conn := Some c; trace := [] |}).
      { split; [reflexivity|]. exists c, []. now rewrite app_nil_r. }
      pose proof (preserves_forM (grown_from c) (main_iteration fs)
                    [1; 2; 3; 4; 5]%nat
                    (fun i => preserves_main_iteration _ fs i
                                (grown_from_process_csv_file c fs)) _ H0) as H.
      destruct (forM [1; 2; 3; 4; 5]%nat (main_iteration fs) _)
        as [[u| e|] p1]; exact H. }
    destruct (try_except _ _ (Pipeline_init 1000)) as [o p1].
    cbn [snd] in H. destruct H as (Hcs & c' & more & Hc' & Hcm).
    unfold disconnect, bind, get. rewrite Hc'. cbn.
    split; [exact Hcs|]. eexists. exists more. cbn. auto.
Qed.

(** *** The calls the script makes *)

Definition returned {A} (o : outcome A) : Prop :=
  match o with Return _ => True | _ => False end.

(** [c] adds to the calls of the trace a prefix of [l], and all of [l] when
    it returns. *)
Definition emits {A} (c : M A) (l : list (string * bool)) : Prop :=
  forall p, exists l',
    process_calls (trace (snd (c p))) = process_calls (trace p) ++ l' /\
    (returned (fst (c p)) -> l' = l) /\
    exists rest, l = l' ++ rest.

Lemma process_calls_app t1 t2 :
  process_calls (t1 ++ t2) = process_calls t1 ++ process_calls t2.
Proof. apply flat_map_app. Qed.

Lemma emits_silent {A} (c : M A) :
  (forall p, trace (snd (c p)) = trace p) -> emits c [].
Proof.
  intros H p. exists []. rewrite H, app_nil_r.
  split; [reflexivity|]. split; [reflexivity|]. now exists [].
Qed.

Lemma emits_bind {A B} (c : M A) (k : A -> M B) l1 l2 :
  emits c l1 -> (forall a, emits (k a) l2) -> emits (bind c k) (l1 ++ l2).
Proof.
  intros Hc Hk p. unfold bind. destruct (Hc p) as (l1' & Ht & Hr & rest & Hp).
  destruct (c p) as [[a| e|] p1]; cbn [fst snd] in *.
  - specialize (Hr I). subst l1'.
    destruct (Hk a p1) as (l2' & Ht2 & Hr2 & rest2 & Hp2).
    exists (l1 ++ l2'). rewrite Ht2, Ht, app_assoc.
    split; [reflexivity|]. split.
    + intros Hret. now rewrite (Hr2 Hret).
    + exists rest2. now rewrite <- app_assoc, <- Hp2.
  - exists l1'. split; [exact Ht|]. split; [intros []|].
    exists (rest ++ l2). now rewrite app_assoc, <- Hp.
  - exists l1'. split; [exact Ht|]. split; [intros []|].
    exists (rest ++ l2). now rewrite app_assoc, <- Hp.
Qed.

Lemma emits_forM {A} (body : A -> M unit) f xs :
  (forall x, emits (body x) (f x)) -> emits (forM xs body) (flat_map f xs).
Proof.
  intros Hb. induction xs as [|x xs IH]; simpl.
  - apply emits_silent. reflexivity.
  - apply emits_bind; [apply Hb|]. intros _. exact IH.
Qed.

Lemma process_csv_file_calls fs filepath update_per_row p :
  process_calls (trace (snd (process_csv_file fs filepath update_per_row p)))
  = process_calls (trace p) ++ [(filepath, update_per_row)].
Proof.
  apply (frame_process_csv_file
           (fun q => process_calls (trace q)
                     = process_calls (trace p) ++ [(filepath, update_per_row)])).
  - intros q e He H. cbn [upd trace]. rewrite process_calls_app, H.
    destruct e; try discriminate He; cbn; now rewrite app_nil_r.
  - intros q prices H. exact H.
  - intros q c r H _ _. exact H.
  - intros q c H _ _. exact H.
  - intros q c H _ _. exact H.
  - cbn [upd trace]. now rewrite process_calls_app.
Qed.

Lemma emits_process_csv_file fs filepath update_per_row :
  emits (process_csv_file fs filepath update_per_row)
        [(filepath, update_per_row)].
Proof.
  intros p. exists [(filepath, update_per_row)].
  split; [apply process_csv_file_calls|]. split; [reflexivity|].
  now exists [].
Qed.

Lemma emits_main_iteration fs i :
  emits (main_iteration fs i) (calls_of_iteration fs i).
Proof.
  unfold main_iteration, calls_of_iteration.
  destruct (path_exists fs (dated_file i)); cbn [negb].
  2:{ apply emits_silent. reflexivity. }
  change ((dated_file i, false)
            :: (if path_exists fs validation_path
                then [(validation_path, true)] else []))
    with ([(dated_file i, false)]
            ++ (if path_exists fs validation_path
                then [(validation_path, true)] else [])).
  apply emits_bind; [apply emits_process_csv_file|]. intros _.
  rewrite <- (app_nil_l (if path_exists fs validation_path then _ else _)).
  apply emits_bind.
  { apply emits_silent. intros p. now rewrite print_stats_state. }
  intros _.
  rewrite <- (app_nil_l (if path_exists fs validation_path then _ else _)).
  apply emits_bind.
  { apply emits_silent. intros p. now rewrite verify_state. }
  intros _.
  rewrite <- (app_nil_r (if path_exists fs validation_path then _ else _)).
  apply emits_bind.
  - destruct (path_exists fs validation_path).
    + rewrite <- (app_nil_r [(validation_path, true)]).
      apply emits_bind; [apply emits_process_csv_file|]. intros _.
      apply emits_silent. intros p. now rewrite print_stats_state.
    + apply emits_silent. reflexivity.
  - intros _. rewrite <- (app_nil_l []).
    apply emits_bind.
    { apply emits_silent. intros p. now rewrite verify_state. }
    intros _. apply emits_silent. reflexivity.
Qed.

(** X15: in every data directory and with every reachable server, the calls
    of [process_csv_file] the script has made when it ends are a prefix of
    this list: for each of [2012-1.csv] to [2012-5.csv] that exists, in this
    order, the file with the batch policy followed, if [validation.csv]
    exists, by [validation.csv] with the row-by-row policy; the script stops
    at the first call that raises, and when it ends normally it has made all
    of them.  So [validation.csv] is processed once per dated file that
    exists, and never when none does. *)
Theorem main_calls fs c :
  let run := main fs (Some c) in
  (exists rest, expected_calls fs = process_calls (trace (snd run)) ++ rest) /\
  (fst run = Return tt -> process_calls (trace (snd run)) = expected_calls fs).
Proof.
  cbv zeta. unfold main, main_block, try_finally.
  assert (Hbody : emits (connect (Some c) ;;
                         forM [1; 2; 3; 4; 5]%nat (main_iteration fs))
                        (expected_calls fs)).
  { rewrite <- (app_nil_l (expected_calls fs)). apply emits_bind.
    - apply emits_silent. reflexivity.
    - intros _. apply emits_forM. apply emits_main_iteration. }
  destruct (Hbody (Pipeline_init 1000)) as (l' & Ht & Hr & rest & Hp).
  change (process_calls (trace (Pipeline_init 1000)))
    with (@nil (string * bool)) in Ht.
  cbn [app] in Ht. unfold try_except.
  destruct ((connect (Some c) ;; forM [1; 2; 3; 4; 5]%nat (main_iteration fs))
              (Pipeline_init 1000)) as [[u| e|] p1]; cbn [fst snd] in *.
  - assert (Hd : exists q, disconnect p1 = (Return tt, q) /\ trace q = trace p1).
    { unfold disconnect, bind, get. destruct (conn p1); eexists; now split. }
    destruct Hd as (q & Hd & Htq). rewrite Hd. cbn [fst snd]. rewrite Htq, Ht.
    rewrite (Hr I). split; [exists []; now rewrite app_nil_r|reflexivity].
  - unfold raise.
    assert (Hd : exists q, disconnect p1 = (Return tt, q) /\ trace q = trace p1).
    { unfold disconnect, bind, get. destruct (conn p1); eexists; now split. }
    destruct Hd as (q & Hd & Htq). rewrite Hd. cbn [fst snd]. rewrite Htq, Ht.
    split; [now exists rest|discriminate].
  - assert (Hd : exists q, disconnect p1 = (Return tt, q) /\ trace q = trace p1).
    { unfold disconnect, bind, get. destruct (conn p1); eexists; now split. }
    destruct Hd as (q & Hd & Htq). rewrite Hd. cbn [fst snd]. rewrite Htq, Ht.
    split; [now exists rest|discriminate].
Qed.

(** X16: when none of the five dated files exists the script processes
    nothing, whether [validation.csv] exists or not: it returns normally with
    an accumulator that has seen no value, an empty trace and the table as
    the server held it. *)
Theorem main_without_dated_files fs c :
  (forall i, In i [1; 2; 3; 4; 5]%nat -> fs (dated_file i) = None) ->
  main fs (Some c)
  = (Return tt,
     {| chunk_size := 1000; stats := Stats_init;
        conn := Some (with_conn c (committed c) [] true); trace := [] |}).
Proof.
  intros H.
  assert (Hit : forall i, In i [1; 2; 3; 4; 5]%nat ->
                          main_iteration fs i = ret tt).
  { intros i Hi. unfold main_iteration, path_exists. now rewrite (H i Hi). }
  unfold main, main_block, try_finally, try_except. cbn [forM].
  rewrite !Hit by (simpl; tauto). reflexivity.
Qed.

Lemma main_without_dated_files_witness :
  main (one_file "./data/validation.csv" rows_plain) (Some willing_server)
  = (Return tt,
     {| chunk_size := 1000; stats := Stats_init;
        conn := Some (with_conn willing_server [] [] true); trace := [] |}).
Proof.
  refine (main_without_dated_files
            (one_file "./data/validation.csv" rows_plain) willing_server _).
  intros i [<-|[<-|[<-|[<-|[<-|[]]]]]]; reflexivity.
Defined.

(** ** A date that does not parse in a later window *)

Lemma bind_Raise {A B} (c : M A) (k : A -> M B) p e p' :
  c p = (Raise e, p') -> bind c k p = (Raise e, p').
Proof. unfold bind. now intros ->. Qed.

Lemma firstn_add {A} (a b : nat) (l : list A) :
  firstn (a + b) l = firstn a l ++ firstn b (skipn a l).
Proof.
  revert l. induction a as [|a IH]; intros l; [reflexivity|].
  destruct l as [|x l]; [simpl; now rewrite firstn_nil|].
  simpl. now rewrite IH.
Qed.

Lemma _prepare_records_raises chunk filename p :
  ~ Forall valid_row chunk ->
  _prepare_records chunk filename p = (Raise ValueError, p).
Proof.
  intros H. pose proof (_prepare_records_bad chunk filename p H) as H1.
  pose proof (rows_to_records_state (fill_null_price chunk) filename p) as H2.
  unfold _prepare_records in *.
  destruct (rows_to_records (fill_null_price chunk) filename p) as [o q].
  simpl in *. now subst.
Qed.

(** [m] full windows that parse, then a window in which a date does not:
    the loop raises [ValueError] with the rows of the [m] windows pending
    and counted. *)
Lemma process_windows_bad_window m :
  forall fuel lf filename update_per_row (k : nat) total p c,
  conn p = Some c -> closed c = false -> accepting c ->
  0 < chunk_size p ->
  Forall valid_row (firstn (m * Z.to_nat (chunk_size p)) (skipn k lf)) ->
  ~ Forall valid_row
      (window lf (Z.of_nat (k + m * Z.to_nat (chunk_size p))) (chunk_size p)) ->
  (m < fuel)%nat ->
  exists p',
    process_windows fuel lf filename update_per_row (Z.of_nat k) total p
    = (Raise ValueError, p') /\
    chunk_size p' = chunk_size p /\
    conn p'
    = Some (add_pending c
              (map (to_record filename)
                 (firstn (m * Z.to_nat (chunk_size p)) (skipn k lf)))) /\
    (forall s0 seen,
       stats_inv s0 seen (stats p) ->
       stats_inv s0
         (seen ++ to_numpy (get_column_price
                    (firstn (m * Z.to_nat (chunk_size p)) (skipn k lf))))
         (stats p')).
Proof.
  induction m as [|m IH];
    intros fuel lf filename update_per_row k total p c Hc Ho Ha Hcs Hv Hbad Hfuel;
    (destruct fuel as [|fuel]; [lia|]).
  - (* the window that starts at row [k] is the one that fails *)
    cbn [Nat.mul] in *. rewrite Nat.add_0_r in Hbad.
    cbn [process_windows]. unfold bind at 1, get.
    rewrite (bind_Return _ _ _ _ _
               (slice_collect_ok lf (Z.of_nat k) (chunk_size p) p ltac:(lia))).
    set (chunk := window lf (Z.of_nat k) (chunk_size p)) in *.
    destruct (length chunk =? 0)%nat eqn:E.
    { apply Nat.eqb_eq in E. destruct chunk; [|discriminate].
      elim Hbad. constructor. }
    rewrite (bind_Raise _ _ _ _ _ (_prepare_records_raises chunk filename _ Hbad)).
    eexists. split; [reflexivity|]. cbn [upd chunk_size conn stats firstn map].
    split; [reflexivity|]. split; [now rewrite add_pending_nil|].
    intros s0 seen H. cbn. now rewrite app_nil_r.
  - set (n := Z.to_nat (chunk_size p)) in *.
    assert (Hn : (1 <= n)%nat) by (unfold n; lia).
    assert (Hw : window lf (Z.of_nat k) (chunk_size p) = firstn n (skipn k lf)).
    { unfold window. now rewrite Nat2Z.id. }
    assert (Hsplit : firstn (S m * n) (skipn k lf)
                     = firstn n (skipn k lf) ++ firstn (m * n) (skipn (k + n) lf)).
    { cbn [Nat.mul]. rewrite firstn_add, skipn_skipn.
      now rewrite (Nat.add_comm n k). }
    rewrite Hsplit in Hv. apply Forall_app in Hv. destruct Hv as (Hv1 & Hv2).
    assert (Hlen : (k < length lf)%nat).
    { destruct (Nat.lt_ge_cases k (length lf)) as [H|H]; [exact H|].
      elim Hbad. unfold window. rewrite skipn_all2 by (rewrite Nat2Z.id; lia).
      rewrite firstn_nil. constructor. }
    assert (Hne : firstn n (skipn k lf) <> []).
    { intros H. apply (f_equal (@length Row)) in H.
      rewrite length_firstn, length_skipn in H. simpl in H. lia. }
    pose proof (process_windows_step fuel lf filename update_per_row
                  (Z.of_nat k) total p c Hc Ho Ha ltac:(lia)) as Hstep.
    cbv zeta in Hstep. rewrite Hw in Hstep.
    rewrite (Hstep Hv1 Hne). clear Hstep.
    assert (Hoff : Z.of_nat k + chunk_size p = Z.of_nat (k + n)) by (unfold n; lia).
    rewrite Hoff.
    destruct (IH fuel lf filename update_per_row (k + n)%nat
                (total + Z.of_nat (length (firstn n (skipn k lf))))
                (after_window update_per_row filename (Z.of_nat k)
                   (firstn n (skipn k lf)) c p)
                (add_pending c (map (to_record filename) (firstn n (skipn k lf)))))
      as (p' & Hrun & Hcs' & Hconn & Hinv); try reflexivity; try assumption.
    + cbn [after_window upd chunk_size]. fold n.
      replace (k + n + m * n)%nat with (k + S m * n)%nat by (cbn [Nat.mul]; lia).
      exact Hbad.
    + lia.
    + cbn [after_window upd chunk_size] in Hrun, Hcs', Hconn, Hinv.
      fold n in Hconn, Hinv.
      exists p'. split; [exact Hrun|]. split; [exact Hcs'|]. split.
      * rewrite Hconn, add_pending_add_pending, Hsplit, map_app. reflexivity.
      * intros s0 seen H. rewrite Hsplit. unfold get_column_price.
        rewrite map_app, to_numpy_app, app_assoc. apply Hinv.
        unfold after_window. cbn [upd stats].
        now apply policy_stats_inv.
Qed.

(** X17: a date that does not parse after [m] full windows that do.  The
    call raises [ValueError] and the rollback empties the transaction, so the
    table holds what it held before the call and none of the [m] windows is
    stored; the accumulator is not taken back: it has counted the rows of
    the [m] windows, and where their prices hold no null and no NaN its
    bounds have taken them in. *)
Theorem process_csv_file_bad_date fs filepath update_per_row lf p c (m : nat) :
  fs filepath = Some lf ->
  conn p = Some c -> closed c = false -> accepting c ->
  0 < chunk_size p ->
  let counted := firstn (m * Z.to_nat (chunk_size p)) lf in
  let values := to_numpy (get_column_price counted) in
  Forall valid_row counted ->
  ~ Forall valid_row
      (window lf (Z.of_nat (m * Z.to_nat (chunk_size p))) (chunk_size p)) ->
  exists p',
    process_csv_file fs filepath update_per_row p = (Raise ValueError, p') /\
    conn p' = Some (with_conn c (committed c) [] false) /\
    COUNT (stats p')
    = COUNT (stats p) + Z.of_nat m * chunk_size p /\
    (nan_free values ->
     MIN_VALUE (stats p') = fold_left py_min values (MIN_VALUE (stats p)) /\
     MAX_VALUE (stats p') = fold_left py_max values (MAX_VALUE (stats p))).
Proof.
  intros Hfs Hc Ho Ha Hcs counted values Hv Hbad.
  set (n := Z.to_nat (chunk_size p)) in *.
  set (p0 := upd p (stats p) (conn p)
               (trace p ++ [EvProcess filepath update_per_row])).
  assert (Hc0 : conn p0 = Some c) by exact Hc.
  assert (Hlen : (m * n < length lf)%nat).
  { destruct (Nat.lt_ge_cases (m * n) (length lf)) as [H|H]; [exact H|].
    elim Hbad. unfold window. rewrite skipn_all2 by (rewrite Nat2Z.id; lia).
    rewrite firstn_nil. constructor. }
  destruct (process_windows_bad_window m (S (length lf)) lf (basename filepath)
              update_per_row 0%nat 0 p0 c Hc0 Ho Ha Hcs Hv Hbad)
    as (p1 & Hrun & Hcs1 & Hconn1 & Hinv).
  { assert (1 <= n)%nat by (unfold n; lia). nia. }
  cbn [skipn upd chunk_size] in Hconn1, Hinv. fold n counted in Hconn1, Hinv.
  specialize (Hinv (stats p) [] (stats_inv_init _)).
  cbn [app] in Hinv. fold values in Hinv. destruct Hinv as (Hcount & Hmin & Hmax).
  eexists. split; [|split; [|split]].
  - unfold process_csv_file.
    rewrite (bind_Return _ _ _ _ _ (log_eq _ p)). fold p0.
    unfold try_except, scan_csv. rewrite Hfs.
    unfold bind at 1, ret at 1.
    rewrite (bind_Raise _ _ _ _ _ Hrun).
    unfold bind at 1, get. rewrite Hconn1.
    unfold connection_rollback. unfold bind at 1.
    rewrite (bind_Return _ _ _ _ _ (the_session_ok p1 _ Hconn1 eq_refl)).
    cbn. reflexivity.
  - cbn. reflexivity.
  - cbn. rewrite Hcount. unfold values, get_column_price, to_numpy.
    rewrite !length_map. unfold counted. rewrite length_firstn.
    rewrite Nat.min_l by (apply Nat.lt_le_incl; exact Hlen).
    rewrite Nat2Z.inj_mul. unfold n.
    change (chunk_size p0) with (chunk_size p).
    rewrite Z2Nat.id by lia. reflexivity.
  - intros Hnf. cbn. split; [now apply Hmin|now apply Hmax].
Qed.

(** Three rows read one at a time, the third with a date that does not
    parse: two rows are counted, none is stored. *)
Lemma process_csv_file_bad_date_witness :
  exists p',
    process_csv_file (one_file "bad.csv" rows_bad_third) "bad.csv" false
      (connected 1)
    = (Raise ValueError, p') /\
    conn p' = Some willing_server /\
    COUNT (stats p') = 2.
Proof.
  destruct (process_csv_file_bad_date (one_file "bad.csv" rows_bad_third)
              "bad.csv" false rows_bad_third (connected 1) willing_server 2
              eq_refl eq_refl eq_refl (fun _ => eq_refl) eq_refl)
    as (p' & Hrun & Hconn & Hcount & _).
  - repeat constructor; discriminate.
  - intros H. inversion H as [|? ? Hr _]. apply Hr. reflexivity.
  - exists p'. split; [exact Hrun|]. split; [exact Hconn|exact Hcount].
Defined.

(** ** The script on well-formed files *)

(** The records a call of [process_csv_file] stores when it succeeds. *)
Definition stored (fs : string -> option DataFrame) (call : string * bool)
    : list record :=
  match fs (fst call) with
  | Some lf => map (to_record (basename (fst call))) lf
  | None => []
  end.

(** Between two calls of the script: the session is open with no row
    pending, the table has grown by the records of the calls made so far,
    and the accumulator has counted as many values. *)
Definition in_step (fs : string -> option DataFrame) (c : connection)
    (q : Pipeline) : Prop :=
  chunk_size q = 1000 /\
  exists c',
    conn q = Some c' /\ closed c' = false /\ pending c' = [] /\
    accepting c' /\
    committed c'
    = committed c ++ flat_map (stored fs) (process_calls (trace q)) /\
    COUNT (stats q)
    = Z.of_nat (length (flat_map (stored fs) (process_calls (trace q)))).

(** [c] keeps [I], and ends by returning or with the [OverflowError] of a
    count too large for a float. *)
Definition keeps {A} (I : Pipeline -> Prop) (c : M A) : Prop :=
  forall p, I p ->
    I (snd (c p)) /\ (returned (fst (c p)) \/ fst (c p) = Raise OverflowError).

Lemma keeps_ret {A} I (a : A) : keeps I (ret a).
Proof. intros p H. split; [exact H|left; exact Logic.I]. Qed.

Lemma keeps_bind {A B} I (c : M A) (k : A -> M B) :
  keeps I c -> (forall a, keeps I (k a)) -> keeps I (bind c k).
Proof.
  intros Hc Hk p H. unfold bind. destruct (Hc p H) as (H1 & Ho).
  destruct (c p) as [[a| e|] p1]; cbn [fst snd] in *.
  - now apply Hk.
  - split; [exact H1|]. destruct Ho as [[]|Ho]. inversion Ho. now right.
  - split; [exact H1|]. destruct Ho as [[]|Ho]. discriminate.
Qed.

Lemma keeps_forM {A} I (body : A -> M unit) xs :
  (forall x, keeps I (body x)) -> keeps I (forM xs body).
Proof.
  intros Hb. induction xs as [|x xs IH]; simpl.
  - apply keeps_ret.
  - apply keeps_bind; auto.
Qed.

Lemma keeps_print_stats I : keeps I print_stats.
Proof.
  intros p H. unfold print_stats, bind, get.
  destruct (_mean (stats p)); cbn; split; auto.
Qed.

Lemma keeps_verify fs c : keeps (in_step fs c) verify_results_from_db.
Proof.
  intros p H. pose proof H as (_ & c' & Hc' & Ho & _).
  unfold verify_results_from_db, fetch_aggregates, the_session, bind, get.
  rewrite Hc', Ho. cbn. split; [exact H|left; exact Logic.I].
Qed.

Lemma keeps_process_csv_file fs c filepath update_per_row :
  (forall path lf, fs path = Some lf -> Forall valid_row lf) ->
  path_exists fs filepath = true ->
  keeps (in_step fs c) (process_csv_file fs filepath update_per_row).
Proof.
  intros Hfs Hex p (Hcs & c' & Hc' & Ho & Hpe & Ha & Hcm & Hcount).
  unfold path_exists in Hex.
  destruct (fs filepath) as [lf|] eqn:Hlf; [|discriminate].
  pose proof (process_csv_file_calls fs filepath update_per_row p) as Hcalls.
  destruct (process_csv_file_ok fs filepath update_per_row lf p c'
              Hlf Hc' Ho Ha ltac:(lia) (Hfs _ _ Hlf))
    as (p' & Hrun & Hcs' & Hconn & Hinv & _).
  rewrite Hrun in *. cbn [fst snd] in *.
  split; [|left; exact Logic.I].
  assert (Hst : flat_map (stored fs) (process_calls (trace p'))
                = flat_map (stored fs) (process_calls (trace p))
                    ++ map (to_record (basename filepath)) lf).
  { rewrite Hcalls, flat_map_app. f_equal. cbn [flat_map]. unfold stored.
    cbn [fst]. now rewrite Hlf, app_nil_r. }
  split; [congruence|]. eexists. split; [exact Hconn|].
  cbn [with_conn closed pending committed accepts].
  split; [reflexivity|]. split; [reflexivity|]. split; [exact Ha|].
  rewrite Hst. split.
  - rewrite Hcm, Hpe. cbn [app]. now rewrite app_assoc.
  - destruct (Hinv (stats p) [] (stats_inv_init _)) as (Hn & _).
    rewrite Hn, Hcount. cbn [app]. unfold get_column_price, to_numpy.
    rewrite !length_app, !length_map. lia.
Qed.

Lemma keeps_main_iteration fs c i :
  (forall path lf, fs path = Some lf -> Forall valid_row lf) ->
  keeps (in_step fs c) (main_iteration fs i).
Proof.
  intros Hfs. unfold main_iteration.
  destruct (path_exists fs (dated_file i)) eqn:Hd; cbn [negb];
    [|apply keeps_ret].
  apply keeps_bind; [now apply keeps_process_csv_file|]. intros _.
  apply keeps_bind; [apply keeps_print_stats|]. intros _.
  apply keeps_bind; [apply keeps_verify|]. intros _.
  apply keeps_bind.
  - destruct (path_exists fs validation_path) eqn:Hv; [|apply keeps_ret].
    apply keeps_bind; [now apply keeps_process_csv_file|]. intros _.
    apply keeps_print_stats.
  - intros _. apply keeps_bind; [apply keeps_verify|].
    intros _. apply keeps_ret.
Qed.

(** X18: the script in a directory whose files all parse, on a fresh session
    with a server that takes every row.  It ends normally (or, with a count
    too large for a float, with the [OverflowError] of the mean); every call
    it has made is committed: the table ends with the rows it held followed
    by the records of each processed file, in the order of the calls, with
    [validation.csv] stored once per dated file; and the accumulator's count
    is the number of rows the run has added to the table. *)
Theorem main_on_well_formed_files fs c :
  (forall path lf, fs path = Some lf -> Forall valid_row lf) ->
  closed c = false -> pending c = [] -> accepting c ->
  let run := main fs (Some c) in
  let calls := process_calls (trace (snd run)) in
  (fst run = Return tt \/ fst run = Raise OverflowError) /\
  (fst run = Return tt -> calls = expected_calls fs) /\
  exists c',
    conn (snd run) = Some c' /\ closed c' = true /\ pending c' = [] /\
    committed c' = committed c ++ flat_map (stored fs) calls /\
    COUNT (stats (snd run)) = Z.of_nat (length (flat_map (stored fs) calls)).
Proof.
  intros Hfs Ho Hpe Ha. cbv zeta. unfold main, main_block, try_finally.
  set (body := connect (Some c) ;;
               forM [1; 2; 3; 4; 5]%nat (main_iteration fs)).
  set (p0 := {| chunk_size := 1000; stats := Stats_init;
                conn := Some c; trace := [] |}).
  assert (H0 : in_step fs c p0).
  { split; [reflexivity|]. exists c. cbn. rewrite app_nil_r. repeat split; auto. }
  assert (Hk : in_step fs c (snd (body (Pipeline_init 1000))) /\
               (returned (fst (body (Pipeline_init 1000))) \/
                fst (body (Pipeline_init 1000)) = Raise OverflowError)).
  { unfold body, connect.
    rewrite (bind_Return _ _ (Pipeline_init 1000) tt p0 eq_refl).
    apply keeps_forM; [|exact H0]. intros i. now apply keeps_main_iteration. }
  assert (He : emits body (expected_calls fs)).
  { unfold body. rewrite <- (app_nil_l (expected_calls fs)). apply emits_bind.
    - apply emits_silent. reflexivity.
    - intros _. apply emits_forM. apply emits_main_iteration. }
  destruct (He (Pipeline_init 1000)) as (l' & Ht & Hr & _).
  change (process_calls (trace (Pipeline_init 1000)))
    with (@nil (string * bool)) in Ht.
  cbn [app] in Ht.
  destruct Hk as ((Hcs & c' & Hc' & Ho' & Hpe' & _ & Hcm & Hcount) & Hout).
  unfold try_except.
  destruct (body (Pipeline_init 1000)) as [[u| e|] p1]; cbn [fst snd] in *;
    unfold raise, disconnect, bind, get; rewrite Hc';
    cbn - [process_calls expected_calls].
  - destruct u. split; [now left|]. split; [intros _; rewrite Ht; apply Hr; exact Logic.I|].
    eexists. split; [reflexivity|]. cbn. auto.
  - destruct Hout as [[]|Hout]. inversion Hout; subst.
    split; [now right|]. split; [discriminate|].
    eexists. split; [reflexivity|]. cbn. auto.
  - destruct Hout as [[]|Hout]. discriminate.
Qed.

Lemma main_on_well_formed_files_witness :
  let run := main full_directory (Some willing_server) in
  let calls := process_calls (trace (snd run)) in
  (fst run = Return tt \/ fst run = Raise OverflowError) /\
  (fst run = Return tt -> calls = expected_calls full_directory) /\
  exists c',
    conn (snd run) = Some c' /\ closed c' = true /\ pending c' = [] /\
    committed c'
    = committed willing_server ++ flat_map (stored full_directory) calls /\
    COUNT (stats (snd run))
    = Z.of_nat (length (flat_map (stored full_directory) calls)).
Proof.
  refine (main_on_well_formed_files full_directory willing_server _
            eq_refl eq_refl (fun _ => eq_refl)).
  intros path lf H. unfold full_directory, directory in H.
  destruct (existsb _ _); inversion H; subst.
  repeat constructor; discriminate.
Defined.
